(** * YaCo, [YaLibs/YaToolsIDALib/Hooks.cpp]: the pending-change tracker

    A shallow embedding of [struct Hooks]: the seven pending containers,
    the intake entry points, [save] and [flush].  Every call the C++ code
    makes on a collaborator (the repository, the model visitor, the
    incremental model, the logger) is recorded, in call order, in a trace. *)

From stdpp Require Import base numbers strings gmap sorting list.

Local Open Scope N_scope.
#[local] Set Warnings "-clear-no-such-hyp".

(** ** IDA scalar types

    [ea_t], [tid_t], [enum_t], [uval_t] and [asize_t] are one unsigned
    machine integer type in the IDA SDK. *)

Definition ea_t := N.
Definition tid_t := N.
Definition enum_t := N.
Definition uval_t := N.
Definition asize_t := N.
Definition flags_t := N.

(** The fields of [struc_t] and [member_t] that Hooks.cpp reads.  A
    [struc_t*] is only tested against null and handed back to
    [get_member]; of a [member_t] only [id] is read. *)

Module struc_t.
Record t := mk { id : tid_t }.
End struc_t.

Module member_t.
Record t := mk { id : tid_t }.
End member_t.

(** ** The IDA SDK and helper functions Hooks.cpp calls

    Pointer results are options ([None] is the null pointer).  [BADADDR]
    is [ea_t(-1)], whose value depends on the width of [ea_t]; the
    comparison [ida_member->id == -1] converts [-1] to the same value. *)

Record Ida := {
  BADADDR : ea_t;
  get_struc_idx : tid_t → uval_t;
  get_func_by_frame : tid_t → ea_t;
  get_struc : tid_t → option struc_t.t;
  get_member : option struc_t.t → asize_t → option member_t.t;
  get_enum_idx : enum_t → uval_t;
  get_func : ea_t → option ea_t;
  get_flags : ea_t → flags_t;
  is_code : flags_t → bool;
  is_member_id : tid_t → bool;
  get_member_fullname : tid_t → string;
  ea_to_hex : ea_t → string;
  get_path_idb : string;
  path_filename : string → string;
  remove_substring : string → string → string
}.

Definition non_null {A} (p : option A) : bool :=
  match p with Some _ => true | None => false end.

(** ** Calls on collaborators *)

Inductive call :=
  (* IRepository *)
  | add_auto_comment (ea : ea_t) (message : string)
  (* IModelVisitor *)
  | visit_start
  | visit_end
  (* IModelIncremental *)
  | accept_ea (ea : ea_t)
  | accept_segment (ea : ea_t)
  | accept_function (ea : ea_t)
  | accept_struct (func_ea : ea_t) (struct_id : tid_t)
  | delete_struct (struct_id : tid_t)
  | accept_struct_member (func_ea : ea_t) (member_id : tid_t)
  | delete_struct_member (func_ea : ea_t) (struct_id : tid_t) (offset : ea_t)
  | accept_enum (enum_id : enum_t)
  | delete_enum (enum_id : enum_t)
  (* the XML export of the model built by the visitor, to [path] *)
  | model_accept_xml (path : string)
  (* Logger; the number of seconds in the message of [save] is not modelled *)
  | IDA_LOG_WARNING (message : string)
  | IDA_LOG_INFO (message : string).

Global Instance call_eq_dec : EqDecision call.
Proof. solve_decision. Defined.

(** ** The state of [struct Hooks] *)

Record Hooks := mkHooks {
  addresses_to_process_ : gset ea_t;
  structures_to_process_ : gset tid_t;
  structmember_to_process_ : gmap tid_t (tid_t * ea_t);
  enums_to_process_ : gset enum_t;
  enummember_to_process_ : gmap ea_t tid_t;
  comments_to_process_ : gset ea_t;
  segments_to_process_ : gset (ea_t * ea_t)
}.

(** The constructor leaves every container default-constructed. *)
Definition Hooks_new : Hooks := mkHooks ∅ ∅ ∅ ∅ ∅ ∅ ∅.

Definition set_addresses (f : gset ea_t → gset ea_t) (h : Hooks) : Hooks :=
  mkHooks (f (addresses_to_process_ h)) (structures_to_process_ h)
    (structmember_to_process_ h) (enums_to_process_ h)
    (enummember_to_process_ h) (comments_to_process_ h)
    (segments_to_process_ h).

Definition set_structures (f : gset tid_t → gset tid_t) (h : Hooks) : Hooks :=
  mkHooks (addresses_to_process_ h) (f (structures_to_process_ h))
    (structmember_to_process_ h) (enums_to_process_ h)
    (enummember_to_process_ h) (comments_to_process_ h)
    (segments_to_process_ h).

Definition set_structmember
    (f : gmap tid_t (tid_t * ea_t) → gmap tid_t (tid_t * ea_t)) (h : Hooks) : Hooks :=
  mkHooks (addresses_to_process_ h) (structures_to_process_ h)
    (f (structmember_to_process_ h)) (enums_to_process_ h)
    (enummember_to_process_ h) (comments_to_process_ h)
    (segments_to_process_ h).

Definition set_enums (f : gset enum_t → gset enum_t) (h : Hooks) : Hooks :=
  mkHooks (addresses_to_process_ h) (structures_to_process_ h)
    (structmember_to_process_ h) (f (enums_to_process_ h))
    (enummember_to_process_ h) (comments_to_process_ h)
    (segments_to_process_ h).

Definition set_enummember
    (f : gmap ea_t tid_t → gmap ea_t tid_t) (h : Hooks) : Hooks :=
  mkHooks (addresses_to_process_ h) (structures_to_process_ h)
    (structmember_to_process_ h) (enums_to_process_ h)
    (f (enummember_to_process_ h)) (comments_to_process_ h)
    (segments_to_process_ h).

Definition set_comments (f : gset ea_t → gset ea_t) (h : Hooks) : Hooks :=
  mkHooks (addresses_to_process_ h) (structures_to_process_ h)
    (structmember_to_process_ h) (enums_to_process_ h)
    (enummember_to_process_ h) (f (comments_to_process_ h))
    (segments_to_process_ h).

Definition set_segments
    (f : gset (ea_t * ea_t) → gset (ea_t * ea_t)) (h : Hooks) : Hooks :=
  mkHooks (addresses_to_process_ h) (structures_to_process_ h)
    (structmember_to_process_ h) (enums_to_process_ h)
    (enummember_to_process_ h) (comments_to_process_ h)
    (f (segments_to_process_ h)).

(** ** Methods as state transformers that log their calls *)

Definition M (A : Type) : Type := Hooks → A * Hooks * list call.

Global Instance M_ret : MRet M := λ A a h, (a, h, []).
Global Instance M_bind : MBind M := λ A B f m h,
  let '(a, h1, t1) := m h in
  let '(b, h2, t2) := f a h1 in
  (b, h2, t1 ++ t2).

Definition this : M Hooks := λ h, (h, h, []).
Definition update (f : Hooks → Hooks) : M unit := λ h, (tt, f h, []).
Definition emit (c : call) : M unit := λ h, (tt, h, [c]).

(** The state a method leaves and the calls it made. *)
Definition state_of {A} (m : M A) (h : Hooks) : Hooks := (m h).1.2.
Definition calls_of {A} (m : M A) (h : Hooks) : list call := (m h).2.

(** A range-based [for] over a container snapshot. *)
Fixpoint for_each {A} (l : list A) (body : A → M unit) : M unit :=
  match l with
  | [] => mret tt
  | x :: l => body x ;; for_each l body
  end.

(** Iteration order of [std::set<ea_t>]: ascending keys. *)
Definition set_iter (s : gset N) : list N := merge_sort N.le (elements s).

(** Iteration order of [std::map<tid_t, T>]: ascending keys. *)
Definition key_le {T} (a b : N * T) : Prop := a.1 ≤ b.1.
Global Instance key_le_dec {T} (a b : N * T) : Decision (key_le a b).
Proof. unfold key_le. apply _. Defined.
Definition map_iter {T} (m : gmap N T) : list (N * T) :=
  merge_sort key_le (map_to_list m).

(** Iteration order of [std::set<std::tuple<ea_t, ea_t>>]: lexicographic. *)
Definition tuple_le (a b : N * N) : Prop :=
  a.1 < b.1 ∨ (a.1 = b.1 ∧ a.2 ≤ b.2).
Global Instance tuple_le_dec (a b : N * N) : Decision (tuple_le a b).
Proof. unfold tuple_le. apply _. Defined.
Definition tuple_set_iter (s : gset (N * N)) : list (N * N) :=
  merge_sort tuple_le (elements s).

(** ** The methods of [Hooks] *)

Section Methods.

Variable ida : Ida.

Definition get_cache_folder_path : string :=
  let cache_folder_path := get_path_idb ida in
  let cache_folder_path :=
    remove_substring ida cache_folder_path (path_filename ida cache_folder_path) in
  cache_folder_path +:+ "cache".

Definition add_address_to_process (ea : ea_t) (message : string) : M unit :=
  update (set_addresses (λ s, {[ea]} ∪ s)) ;;
  emit (add_auto_comment ea message).

Definition add_strucmember_to_process
    (struct_id : ea_t) (member_id : tid_t) (member_offset : ea_t)
    (message : string) : M unit :=
  update (set_structmember (λ m, <[struct_id := (member_id, member_offset)]> m)) ;;
  emit (add_auto_comment struct_id message).

(** The annotation [rename] builds, one [+=] per line. *)
Definition rename_message (new_name type old_name : string) : string :=
  let message := type in
  let message := if String.eqb type "" then message else message +:+ " " in
  let message := message +:+ "renamed " in
  let message :=
    if String.eqb old_name "" then message
    else (message +:+ "from ") +:+ old_name in
  let message := message +:+ "to " in
  message +:+ new_name.

Definition rename (ea : ea_t) (new_name type old_name : string) : M unit :=
  add_address_to_process ea (rename_message new_name type old_name).

Definition change_comment (ea : ea_t) : M unit :=
  update (set_comments (λ s, {[ea]} ∪ s)).

Definition undefine (ea : ea_t) : M unit :=
  add_address_to_process ea "Undefne".

Definition delete_function (ea : ea_t) : M unit :=
  add_address_to_process ea "Delete function".

Definition make_code (ea : ea_t) : M unit :=
  add_address_to_process ea "Create code".

Definition make_data (ea : ea_t) : M unit :=
  add_address_to_process ea "Create data".

Definition add_function (ea : ea_t) : M unit :=
  add_address_to_process ea "Create function".

Definition update_structure (struct_id : ea_t) : M unit :=
  update (set_structures (λ s, {[struct_id]} ∪ s)) ;;
  emit (add_auto_comment struct_id "Updated").

Definition update_structure_member
    (struct_id member_id : tid_t) (member_offset : ea_t) : M unit :=
  let message := "Member updated at offset " in
  let message := message +:+ ea_to_hex ida member_offset in
  let message := message +:+ " : " in
  let member_id_fullname := get_member_fullname ida member_id in
  let message := message +:+ member_id_fullname in
  add_strucmember_to_process struct_id member_id member_offset message.

Definition delete_structure_member
    (struct_id member_id : tid_t) (offset : ea_t) : M unit :=
  add_strucmember_to_process struct_id member_id offset "Member deleted".

Definition update_enum (enum_id : enum_t) : M unit :=
  update (set_enums (λ s, {[enum_id]} ∪ s)) ;;
  emit (add_auto_comment enum_id "Updated").

Definition change_operand_type (ea : ea_t) : M unit :=
  if non_null (get_func ida ea) || is_code ida (get_flags ida ea) then
    update (set_addresses (λ s, {[ea]} ∪ s)) ;;
    emit (add_auto_comment ea "Operand type change")
  else if is_member_id ida ea then
    mret tt
  else
    emit (IDA_LOG_WARNING
            ("Operand type changed at " +:+ ea_to_hex ida ea
             +:+ ", code out of a function: not implemented")).

Definition add_segment (start_ea end_ea : ea_t) : M unit :=
  update (set_segments (λ s, {[(start_ea, end_ea)]} ∪ s)).

Definition change_type_information (ea : ea_t) : M unit :=
  add_address_to_process ea "Type information changed".

Definition flush : M unit :=
  update (set_addresses (λ _, ∅)) ;;
  update (set_structures (λ _, ∅)) ;;
  update (set_structmember (λ _, ∅)) ;;
  update (set_enums (λ _, ∅)) ;;
  update (set_enummember (λ _, ∅)) ;;
  update (set_comments (λ _, ∅)) ;;
  update (set_segments (λ _, ∅)).

(** Body of the first loop of [save_structures]. *)
Definition save_structure (struct_id : tid_t) : M unit :=
  let struct_idx := get_struc_idx ida struct_id in
  if negb (struct_idx =? BADADDR ida) then
    (* structure or stackframe modified *)
    emit (accept_struct (BADADDR ida) struct_id)
  else
    (* structure or stackframe deleted: export the parent (function) *)
    let func_ea := get_func_by_frame ida struct_id in
    if negb (func_ea =? BADADDR ida) then
      emit (accept_struct func_ea struct_id) ;;
      emit (accept_ea func_ea)
    else
      emit (delete_struct struct_id).

(** The part of the second loop body after the structure is resolved,
    with [stackframe_func_addr] as it stands at that point. *)
Definition save_member
    (ida_struct : option struc_t.t) (stackframe_func_addr : ea_t)
    (struct_id : tid_t) (member_offset : ea_t) : M unit :=
  match get_member ida ida_struct member_offset with
  | None =>
      emit (delete_struct_member stackframe_func_addr struct_id member_offset)
  | Some ida_member =>
      if member_t.id ida_member =? BADADDR ida then
        (* member deleted *)
        emit (delete_struct_member stackframe_func_addr struct_id member_offset)
      else
        let replaced :=
          if 0 <? member_offset then
            match get_member ida ida_struct (member_offset - 1) with
            | Some ida_prev_member =>
                member_t.id ida_prev_member =? member_t.id ida_member
            | None => false
            end
          else false in
        if replaced then
          (* member deleted and replaced by member starting above it *)
          emit (delete_struct_member stackframe_func_addr struct_id member_offset)
        else
          (* member updated *)
          emit (accept_struct_member stackframe_func_addr (member_t.id ida_member))
  end.

(** Body of the second loop of [save_structures]. *)
Definition save_structmember (struct_info : tid_t * (tid_t * ea_t)) : M unit :=
  let struct_id := struct_info.1 in
  let member_offset := struct_info.2.2 in
  let ida_struct := get_struc ida struct_id in
  let struct_idx := get_struc_idx ida struct_id in
  let stackframe_func_addr := BADADDR ida in
  if negb (non_null ida_struct) || (struct_idx =? BADADDR ida) then
    (* structure or stackframe deleted *)
    let func_ea := get_func_by_frame ida struct_id in
    if func_ea =? BADADDR ida then
      emit (delete_struct_member (BADADDR ida) struct_id member_offset)
    else
      let stackframe_func_addr := func_ea in
      emit (accept_function stackframe_func_addr) ;;
      save_member ida_struct stackframe_func_addr struct_id member_offset
  else
    save_member ida_struct stackframe_func_addr struct_id member_offset.

Definition save_structures : M unit :=
  h ← this;
  for_each (set_iter (structures_to_process_ h)) save_structure ;;
  h ← this;
  for_each (map_iter (structmember_to_process_ h)) save_structmember.

(** Body of the loop of [save_enums]. *)
Definition save_enum (enum_id : enum_t) : M unit :=
  let enum_idx := get_enum_idx ida enum_id in
  if enum_idx =? BADADDR ida then
    emit (delete_enum enum_id)
  else
    emit (accept_enum enum_id).

Definition save_enums : M unit :=
  h ← this;
  for_each (set_iter (enums_to_process_ h)) save_enum.

Definition save : M unit :=
  emit visit_start ;;
  (* add comments to addresses to process *)
  h ← this;
  for_each (set_iter (comments_to_process_ h))
    (λ ea, add_address_to_process ea "Changed comment") ;;
  (* process structures *)
  save_structures ;;
  (* process enums *)
  save_enums ;;
  (* process addresses *)
  h ← this;
  for_each (set_iter (addresses_to_process_ h)) (λ ea, emit (accept_ea ea)) ;;
  (* process segments *)
  h ← this;
  for_each (tuple_set_iter (segments_to_process_ h))
    (λ segment_ea, emit (accept_segment segment_ea.1)) ;;
  emit visit_end ;;
  emit (model_accept_xml get_cache_folder_path) ;;
  emit (IDA_LOG_INFO "Saved in %lld seconds").

(** The calls of the passes of [save], read off a state [h]. *)
Definition comment_pass (h : Hooks) : list call :=
  (λ ea, add_auto_comment ea "Changed comment")
    <$> set_iter (comments_to_process_ h).
Definition structure_pass (h : Hooks) : list call :=
  flat_map (λ s, calls_of (save_structure s) h)
    (set_iter (structures_to_process_ h)).
Definition structmember_pass (h : Hooks) : list call :=
  flat_map (λ e, calls_of (save_structmember e) h)
    (map_iter (structmember_to_process_ h)).
Definition enum_pass (h : Hooks) : list call :=
  flat_map (λ e, calls_of (save_enum e) h)
    (set_iter (enums_to_process_ h)).
Definition address_pass (h : Hooks) : list call :=
  accept_ea <$> set_iter (comments_to_process_ h ∪ addresses_to_process_ h).
Definition segment_pass (h : Hooks) : list call :=
  (λ segment_ea : ea_t * ea_t, accept_segment segment_ea.1)
    <$> tuple_set_iter (segments_to_process_ h).

End Methods.

(** ** Entry points of [IHooks], reified *)

Inductive intake :=
  | Rename (ea : ea_t) (new_name type old_name : string)
  | ChangeComment (ea : ea_t)
  | Undefine (ea : ea_t)
  | DeleteFunction (ea : ea_t)
  | MakeCode (ea : ea_t)
  | MakeData (ea : ea_t)
  | AddFunction (ea : ea_t)
  | UpdateStructure (struct_id : ea_t)
  | UpdateStructureMember (struct_id member_id : tid_t) (member_offset : ea_t)
  | DeleteStructureMember (struct_id member_id : tid_t) (offset : ea_t)
  | UpdateEnum (enum_id : enum_t)
  | ChangeOperandType (ea : ea_t)
  | AddSegment (start_ea end_ea : ea_t)
  | ChangeTypeInformation (ea : ea_t).

Definition intake_call (ida : Ida) (i : intake) : M unit :=
  match i with
  | Rename ea new_name type old_name => rename ea new_name type old_name
  | ChangeComment ea => change_comment ea
  | Undefine ea => undefine ea
  | DeleteFunction ea => delete_function ea
  | MakeCode ea => make_code ea
  | MakeData ea => make_data ea
  | AddFunction ea => add_function ea
  | UpdateStructure struct_id => update_structure struct_id
  | UpdateStructureMember struct_id member_id member_offset =>
      update_structure_member ida struct_id member_id member_offset
  | DeleteStructureMember struct_id member_id offset =>
      delete_structure_member struct_id member_id offset
  | UpdateEnum enum_id => update_enum enum_id
  | ChangeOperandType ea => change_operand_type ida ea
  | AddSegment start_ea end_ea => add_segment start_ea end_ea
  | ChangeTypeInformation ea => change_type_information ea
  end.

(** The entry points that go through [add_address_to_process], with the
    address they register. *)
Definition address_mutation (i : intake) : option ea_t :=
  match i with
  | Rename ea _ _ _ | Undefine ea | DeleteFunction ea | MakeCode ea
  | MakeData ea | AddFunction ea | ChangeTypeInformation ea => Some ea
  | _ => None
  end.

(** The entry points that go through [add_strucmember_to_process], with
    the structure, member and offset they register. *)
Definition member_edit (i : intake) : option (tid_t * (tid_t * ea_t)) :=
  match i with
  | UpdateStructureMember struct_id member_id member_offset
  | DeleteStructureMember struct_id member_id member_offset =>
      Some (struct_id, (member_id, member_offset))
  | _ => None
  end.

Definition pending_empty (h : Hooks) : Prop :=
  addresses_to_process_ h = ∅ ∧ structures_to_process_ h = ∅
  ∧ structmember_to_process_ h = ∅ ∧ enums_to_process_ h = ∅
  ∧ enummember_to_process_ h = ∅ ∧ comments_to_process_ h = ∅
  ∧ segments_to_process_ h = ∅.

(** Does the entry point register a member edit for [struct_id]? *)
Definition edits_structure (struct_id : tid_t) (i : intake) : bool :=
  match member_edit i with
  | Some (s, _) => s =? struct_id
  | None => false
  end.

(** The optional type label in front of a rename annotation. *)
Definition type_label (type : string) : string :=
  if String.eqb type "" then "" else type +:+ " ".

(** ** Counting calls in a trace *)

Definition count (c : call) (t : list call) : nat := count_occ call_eq_dec t c.

(** ** A small database to run the methods on

    64-bit addresses.  Structure 7 is live (index 0) with a member 100 on
    offsets 0..3 and a member 101 on offsets 4..7; structure 9 is the stack
    frame of the function at 5 (frames have no structure index); every
    other structure id is unknown.  Enum 3 is live. *)

Definition ida_ex : Ida := {|
  BADADDR := 2 ^ 64 - 1;
  get_struc_idx := λ s, if s =? 7 then 0 else 2 ^ 64 - 1;
  get_func_by_frame := λ s, if s =? 9 then 5 else 2 ^ 64 - 1;
  get_struc := λ s,
    if (s =? 7) || (s =? 9) then Some (struc_t.mk s) else None;
  get_member := λ st o,
    match st with
    | Some _ =>
        if o <? 4 then Some (member_t.mk 100)
        else if o <? 8 then Some (member_t.mk 101) else None
    | None => None
    end;
  get_enum_idx := λ e, if e =? 3 then 0 else 2 ^ 64 - 1;
  get_func := λ ea, if ea =? 5 then Some 5 else None;
  get_flags := λ ea, 0;
  is_code := λ f, false;
  is_member_id := λ t, (t =? 100) || (t =? 101);
  get_member_fullname := λ t, if t =? 100 then "s.a" else "s.b";
  ea_to_hex := λ ea, "0x4";
  get_path_idb := "/tmp/a.idb";
  path_filename := λ p, "a.idb";
  remove_substring := λ a b, "/tmp/"
|}.

(** The frame of the function at 5 and an unknown structure, both pending. *)
Definition h_structures : Hooks :=
  state_of (update_structure 9 ;; update_structure 11) Hooks_new.

(** A live enum and a deleted one, both pending. *)
Definition h_enums : Hooks :=
  state_of (update_enum 3 ;; update_enum 2) Hooks_new.

(** Member edits pending on the live structure 7 and on the frame 9, at an
    offset inside the member that starts at 0. *)
Definition h_members : Hooks :=
  state_of (update_structure_member ida_ex 7 100 2 ;;
            delete_structure_member 9 100 2) Hooks_new.

(** A comment changed at 4096, nothing else pending there. *)
Definition h_comment : Hooks :=
  state_of (change_comment 4096 ;; undefine 8192) Hooks_new.

(** ** Vocabulary for the properties of the whole tracker *)

(** The calls made on the incremental model. *)
Definition is_model_call (c : call) : bool :=
  match c with
  | accept_ea _ | accept_segment _ | accept_function _ | accept_struct _ _
  | delete_struct _ | accept_struct_member _ _ | delete_struct_member _ _ _
  | accept_enum _ | delete_enum _ => true
  | _ => false
  end.

(** The two calls that settle a pending member entry. *)
Definition is_member_call (c : call) : bool :=
  match c with
  | accept_struct_member _ _ | delete_struct_member _ _ _ => true
  | _ => false
  end.

(** The test of the first loop of [save_structures] that leads to "accept
    address": [s] has no structure index and is the frame of a function,
    here the one at [ea]. *)
Definition owned_frame (ida : Ida) (ea : ea_t) (s : tid_t) : bool :=
  (get_struc_idx ida s =? BADADDR ida)
  && negb (get_func_by_frame ida s =? BADADDR ida)
  && (get_func_by_frame ida s =? ea).

(** What a host calls between two [flush]es: intake entry points and
    [save]. *)
Inductive command :=
  | Intake (i : intake)
  | Save.

Definition command_call (ida : Ida) (c : command) : M unit :=
  match c with
  | Intake i => intake_call ida i
  | Save => save ida
  end.

(** Everything pending in [h] is pending in [h']. *)
Definition pending_le (h h' : Hooks) : Prop :=
  addresses_to_process_ h ⊆ addresses_to_process_ h'
  ∧ structures_to_process_ h ⊆ structures_to_process_ h'
  ∧ dom (structmember_to_process_ h) ⊆ dom (structmember_to_process_ h')
  ∧ enums_to_process_ h ⊆ enums_to_process_ h'
  ∧ comments_to_process_ h ⊆ comments_to_process_ h'
  ∧ segments_to_process_ h ⊆ segments_to_process_ h'.

(** Two entry points clash when both write the structure-member map at
    the same structure with different values. *)
Definition clash (i j : intake) : bool :=
  match member_edit i, member_edit j with
  | Some (s, v), Some (s', v') =>
      (s =? s') && negb (bool_decide (v = v'))
  | _, _ => false
  end.

(** A pending comment at the entry of the function that owns the pending
    frame 9, a pending member of the live structure 7, a pending enum and
    a pending segment. *)
Definition h_mixed : Hooks :=
  state_of (change_comment 5 ;; update_structure 9 ;;
            update_structure_member ida_ex 7 101 4 ;;
            update_enum 3 ;; add_segment 4096 8192) Hooks_new.

(** The calls that carry [struct_id] as their structure argument. *)
Definition names_structure (struct_id : tid_t) (c : call) : bool :=
  match c with
  | accept_struct _ s | delete_struct s | delete_struct_member _ s _ =>
      s =? struct_id
  | _ => false
  end.

(** An unknown structure pending both as a structure change and with a
    member edit. *)
Definition h_deleted_with_member : Hooks :=
  state_of (update_structure 11 ;; delete_structure_member 11 100 3) Hooks_new.

(** The frame of the function at 5 pending. *)
Definition h_frame : Hooks := state_of (update_structure 9) Hooks_new.

(** The same, and the address 5 registered three times. *)
Definition h_frame_and_address : Hooks :=
  state_of (for_each (replicate 3 (Undefine 5)) (intake_call ida_ex)) h_frame.

(** * Properties *)

(** ** One session, run *)

(** A batch of edits followed by [save], on the small database. *)
Example session_calls :
  calls_of
    (undefine 16 ;; undefine 16 ;; rename 5 "new" "function" "old" ;;
     change_comment 5 ;; change_comment 1 ;;
     update_structure 7 ;; update_structure 9 ;; update_structure 11 ;;
     update_structure_member ida_ex 7 101 4 ;;
     delete_structure_member 7 100 2 ;;
     delete_structure_member 11 100 3 ;;
     update_enum 3 ;; update_enum 2 ;;
     add_segment 40 50 ;; add_segment 10 50 ;; add_segment 10 20 ;;
     save ida_ex) Hooks_new
  = [add_auto_comment 16 "Undefne"; add_auto_comment 16 "Undefne";
     add_auto_comment 5 "function renamed from oldto new";
     add_auto_comment 7 "Updated"; add_auto_comment 9 "Updated";
     add_auto_comment 11 "Updated";
     add_auto_comment 7 "Member updated at offset 0x4 : s.b";
     add_auto_comment 7 "Member deleted";
     add_auto_comment 11 "Member deleted";
     add_auto_comment 3 "Updated"; add_auto_comment 2 "Updated";
     visit_start;
     add_auto_comment 1 "Changed comment";
     add_auto_comment 5 "Changed comment";
     accept_struct (BADADDR ida_ex) 7; accept_struct 5 9; accept_ea 5;
     delete_struct 11;
     delete_struct_member (BADADDR ida_ex) 7 2;
     delete_struct_member (BADADDR ida_ex) 11 3;
     delete_enum 2; accept_enum 3;
     accept_ea 1; accept_ea 5; accept_ea 16;
     accept_segment 10; accept_segment 10; accept_segment 40;
     visit_end; model_accept_xml "/tmp/cache";
     IDA_LOG_INFO "Saved in %lld seconds"].
Proof. by vm_compute. Qed.

(** [flush] after it leaves a newly constructed state; [save] alone does
    not. *)
Example session_flush :
  state_of (undefine 16 ;; change_comment 5 ;; save ida_ex ;; flush) Hooks_new
  = Hooks_new
  ∧ set_iter (addresses_to_process_
                (state_of (undefine 16 ;; change_comment 5 ;; save ida_ex)
                   Hooks_new))
    = [5; 16].
Proof. by vm_compute. Qed.

(** ** The monad and the loops *)

Lemma run_bind {A B} (m : M A) (f : A → M B) h a h1 t1 b h2 t2 :
  m h = (a, h1, t1) → f a h1 = (b, h2, t2) →
  (m ≫= f) h = (b, h2, t1 ++ t2).
Proof. intros Hm Hf. unfold mbind, M_bind. by rewrite Hm, Hf. Qed.

Lemma run_bind_eq {A B} (m : M A) (f : A → M B) h :
  (m ≫= f) h
  = (let '(a, h1, t1) := m h in
     let '(b, h2, t2) := f a h1 in (b, h2, t1 ++ t2)).
Proof. reflexivity. Qed.

Lemma run_this {B} (f : Hooks → M B) h : (this ≫= f) h = f h h.
Proof. rewrite run_bind_eq. unfold this. by destruct (f h h) as [[b h2] t2]. Qed.

Lemma calls_of_bind {A B} (m : M A) (f : A → M B) h :
  calls_of (m ≫= f) h
  = calls_of m h ++ calls_of (f (m h).1.1) (state_of m h).
Proof.
  unfold calls_of, state_of, mbind, M_bind.
  destruct (m h) as [[a h1] t1]; simpl. by destruct (f a h1) as [[b h2] t2].
Qed.

Lemma state_of_bind {A B} (m : M A) (f : A → M B) h :
  state_of (m ≫= f) h = state_of (f (m h).1.1) (state_of m h).
Proof.
  unfold state_of, mbind, M_bind.
  destruct (m h) as [[a h1] t1]; simpl. by destruct (f a h1) as [[b h2] t2].
Qed.

(** A loop whose body leaves the state alone makes the calls of each
    iteration, in iteration order. *)
Lemma for_each_read_only {A} (body : A → M unit) (l : list A) h :
  (∀ x h, state_of (body x) h = h) →
  for_each l body h = (tt, h, flat_map (λ x, calls_of (body x) h) l).
Proof.
  intros Hro. induction l as [|x l IH]; [done|].
  simpl. specialize (Hro x h). unfold state_of, calls_of in *.
  destruct (body x h) as [[[] h1] t1] eqn:Hb; simpl in *; subst h1.
  by erewrite run_bind; [| exact Hb | exact IH].
Qed.

Lemma for_each_add_address (message : string) (l : list ea_t) h :
  for_each l (λ ea, add_address_to_process ea message) h
  = (tt, set_addresses (λ s, list_to_set l ∪ s) h,
     (λ ea, add_auto_comment ea message) <$> l).
Proof.
  revert h. induction l as [|x l IH]; intros h.
  - simpl. unfold mret, M_ret, set_addresses. destruct h; simpl.
    do 3 f_equal. set_solver.
  - simpl. erewrite run_bind; [| reflexivity | apply IH]. simpl.
    do 2 f_equal. unfold set_addresses; simpl. f_equal. set_solver.
Qed.

(** ** Iteration orders enumerate the container, each element once *)

Lemma set_iter_perm (s : gset N) : set_iter s ≡ₚ elements s.
Proof. apply merge_sort_Permutation. Qed.

Lemma elem_of_set_iter (s : gset N) x : x ∈ set_iter s ↔ x ∈ s.
Proof. by rewrite set_iter_perm, elem_of_elements. Qed.

Lemma NoDup_set_iter (s : gset N) : NoDup (set_iter s).
Proof. rewrite set_iter_perm. apply NoDup_elements. Qed.

Lemma list_to_set_set_iter (s : gset N) : list_to_set (set_iter s) = s.
Proof. apply set_eq. intros x. by rewrite elem_of_list_to_set, elem_of_set_iter. Qed.

Lemma map_iter_perm {T} (m : gmap N T) : map_iter m ≡ₚ map_to_list m.
Proof. apply merge_sort_Permutation. Qed.

Lemma elem_of_map_iter {T} (m : gmap N T) k v :
  (k, v) ∈ map_iter m ↔ m !! k = Some v.
Proof. by rewrite map_iter_perm, elem_of_map_to_list. Qed.

Lemma NoDup_map_iter {T} (m : gmap N T) : NoDup (map_iter m).
Proof. rewrite map_iter_perm. apply NoDup_map_to_list. Qed.

Lemma NoDup_fst_map_iter {T} (m : gmap N T) : NoDup ((map_iter m).*1).
Proof. rewrite map_iter_perm. apply NoDup_fst_map_to_list. Qed.

(** ** What one [save] does *)

Section Save.

Variable ida : Ida.

Lemma save_structure_state s h : state_of (save_structure ida s) h = h.
Proof. unfold save_structure. by repeat case_match. Qed.

Lemma save_structure_calls_indep s h h' :
  calls_of (save_structure ida s) h = calls_of (save_structure ida s) h'.
Proof. unfold save_structure. by repeat case_match. Qed.

Lemma save_member_state st ctx s o h :
  state_of (save_member ida st ctx s o) h = h.
Proof. unfold save_member. by repeat case_match. Qed.

Lemma save_structmember_state e h : state_of (save_structmember ida e) h = h.
Proof.
  unfold save_structmember. repeat case_match; try done.
  - by rewrite state_of_bind, save_member_state.
  - apply save_member_state.
Qed.

Lemma save_structmember_calls_indep e h h' :
  calls_of (save_structmember ida e) h = calls_of (save_structmember ida e) h'.
Proof.
  unfold save_structmember, save_member. by repeat case_match.
Qed.

Lemma save_enum_state e h : state_of (save_enum ida e) h = h.
Proof. unfold save_enum. by repeat case_match. Qed.

Lemma save_enum_calls_indep e h h' :
  calls_of (save_enum ida e) h = calls_of (save_enum ida e) h'.
Proof. unfold save_enum. by repeat case_match. Qed.

Lemma save_structures_run h :
  save_structures ida h = (tt, h, structure_pass ida h ++ structmember_pass ida h).
Proof.
  unfold save_structures. rewrite run_this, run_bind_eq.
  rewrite for_each_read_only by apply save_structure_state.
  rewrite run_this.
  by rewrite for_each_read_only by apply save_structmember_state.
Qed.

Lemma save_enums_run h : save_enums ida h = (tt, h, enum_pass ida h).
Proof.
  unfold save_enums. rewrite run_this.
  apply for_each_read_only, save_enum_state.
Qed.

Lemma for_each_emit {A} (f : A → call) (l : list A) h :
  for_each l (λ x, emit (f x)) h = (tt, h, f <$> l).
Proof.
  rewrite for_each_read_only by done. by f_equal.
Qed.

Theorem save_run h :
  save ida h
  = (tt, set_addresses (λ s, comments_to_process_ h ∪ s) h,
     [visit_start] ++ comment_pass h ++ structure_pass ida h
     ++ structmember_pass ida h ++ enum_pass ida h ++ address_pass h
     ++ segment_pass h
     ++ [visit_end; model_accept_xml (get_cache_folder_path ida);
         IDA_LOG_INFO "Saved in %lld seconds"]).
Proof.
  set (h1 := set_addresses (λ s, comments_to_process_ h ∪ s) h).
  assert (Hs : structure_pass ida h1 = structure_pass ida h).
  { unfold structure_pass. simpl. apply flat_map_ext. intros s.
    apply save_structure_calls_indep. }
  assert (Hm : structmember_pass ida h1 = structmember_pass ida h).
  { unfold structmember_pass. simpl. apply flat_map_ext. intros s.
    apply save_structmember_calls_indep. }
  assert (He : enum_pass ida h1 = enum_pass ida h).
  { unfold enum_pass. simpl. apply flat_map_ext. intros s.
    apply save_enum_calls_indep. }
  unfold save. rewrite run_bind_eq. unfold emit at 1. cbv beta iota.
  rewrite run_this, run_bind_eq.
  rewrite for_each_add_address, list_to_set_set_iter. fold h1.
  rewrite run_bind_eq, save_structures_run.
  rewrite run_bind_eq, save_enums_run.
  rewrite run_this, run_bind_eq, for_each_emit.
  rewrite run_this, run_bind_eq, for_each_emit.
  rewrite Hs, Hm, He. unfold emit, mbind, M_bind. cbv beta iota.
  do 2 f_equal. by rewrite <- !app_assoc.
Qed.

End Save.

(** ** Counting lemmas *)

Lemma count_app c t1 t2 : count c (t1 ++ t2) = (count c t1 + count c t2)%nat.
Proof. apply count_occ_app. Qed.

Lemma count_zero_iff c t : count c t = 0%nat ↔ c ∉ t.
Proof.
  unfold count. rewrite <- count_occ_not_In. by rewrite list_elem_of_In.
Qed.

Lemma count_fmap_other {A} (f : A → call) c (l : list A) :
  (∀ x, f x ≠ c) → count c (f <$> l) = 0%nat.
Proof.
  intros Hne. apply count_zero_iff. intros (x & Hx & _)%list_elem_of_fmap.
  by eapply Hne.
Qed.

Lemma count_fmap_NoDup {A} (f : A → call) `{!Inj (=) (=) f} e (l : list A) :
  NoDup l → e ∈ l → count (f e) (f <$> l) = 1%nat.
Proof.
  induction 1 as [|x l Hx Hnd IH]; [by intros ?%elem_of_nil|].
  intros [->|Hin]%elem_of_cons; unfold count in *; simpl.
  - destruct (call_eq_dec (f x) (f x)); [|done]. f_equal.
    apply count_zero_iff. intros (y & Hy & Hin)%list_elem_of_fmap.
    apply (inj f) in Hy. by subst.
  - destruct (call_eq_dec (f x) (f e)) as [Heq|]; [|by apply IH].
    apply (inj f) in Heq. by subst.
Qed.

Lemma count_flat_map_zero {A} (f : A → list call) c (l : list A) :
  (∀ x, x ∈ l → count c (f x) = 0%nat) → count c (flat_map f l) = 0%nat.
Proof.
  induction l as [|x l IH]; [done|]. intros Hz. simpl.
  rewrite count_app, Hz, IH; [done| |by left].
  intros y Hy. apply Hz. by right.
Qed.

Lemma count_flat_map_NoDup {A} (f : A → list call) c e (l : list A) :
  NoDup l → e ∈ l →
  (∀ x, x ∈ l → x ≠ e → count c (f x) = 0%nat) →
  count c (flat_map f l) = count c (f e).
Proof.
  induction 1 as [|x l Hx Hnd IH]; [by intros ?%elem_of_nil|].
  intros Hin Hz. simpl. rewrite count_app.
  apply elem_of_cons in Hin as [Heq|Hin].
  - subst x. rewrite (count_flat_map_zero _ _ l); [lia|].
    intros y Hy. apply Hz; [by right|]. by intros ->.
  - rewrite Hz, IH; [done|done| |by left|by intros ->].
    intros y Hy ?. apply Hz; [by right|done].
Qed.

(** The calls of one iteration sit, as a block, in the calls of the loop. *)
Lemma flat_map_split {A} (f : A → list call) e (l : list A) :
  e ∈ l → ∃ pre post, flat_map f l = pre ++ f e ++ post.
Proof.
  intros (l1 & l2 & ->)%list_elem_of_split.
  exists (flat_map f l1), (flat_map f l2). by rewrite flat_map_app.
Qed.

(** ** The containers across [save] and [flush] *)

(** C10: [save] changes, among the seven pending containers, only the
    pending address set, into which it inserts every pending comment
    address; the other six hold after [save] what they held before. *)
Theorem C10_save_frame (ida : Ida) (h : Hooks) :
  let h' := state_of (save ida) h in
  addresses_to_process_ h' = comments_to_process_ h ∪ addresses_to_process_ h
  ∧ structures_to_process_ h' = structures_to_process_ h
  ∧ structmember_to_process_ h' = structmember_to_process_ h
  ∧ enums_to_process_ h' = enums_to_process_ h
  ∧ enummember_to_process_ h' = enummember_to_process_ h
  ∧ comments_to_process_ h' = comments_to_process_ h
  ∧ segments_to_process_ h' = segments_to_process_ h.
Proof. unfold state_of. rewrite save_run. simpl. repeat split. Qed.

(** C1, as stated, fails: one [undefine] followed by a [save] leaves the
    address pending. *)
Lemma C1_save_leaves_pending :
  ¬ pending_empty (state_of (undefine 4096 ;; save ida_ex) Hooks_new).
Proof.
  intros (Ha & _).
  apply (f_equal (λ s : gset N, bool_decide (4096 ∈ s))) in Ha.
  vm_compute in Ha. discriminate.
Qed.

(** C1, amended: the containers are cleared by [flush], not by [save].
    Whatever ran before (any intake calls, any number of [save]s), after
    [flush] the state is that of a newly constructed [Hooks], in which all
    seven containers are empty. *)
Theorem C1_flush_clears (m : M unit) (h : Hooks) :
  state_of (m ;; flush) h = Hooks_new
  ∧ pending_empty (state_of (m ;; flush) h)
  ∧ pending_empty Hooks_new.
Proof.
  assert (state_of (m ;; flush) h = Hooks_new) as ->.
  { by rewrite state_of_bind. }
  by repeat split.
Qed.

(** ** Annotations of the intake entry points *)

(** C2: each of the six entry points inserts the address into the pending
    address set and sends one annotation keyed by it.  Five send the text
    the specification gives; [undefine] sends ["Undefne"], which is not
    ["Undefine"]. *)
Theorem C2_fixed_annotations (ea : ea_t) (h : Hooks) :
  let h' := set_addresses (λ s, {[ea]} ∪ s) h in
  undefine ea h = (tt, h', [add_auto_comment ea "Undefne"])
  ∧ calls_of (undefine ea) h ≠ [add_auto_comment ea "Undefine"]
  ∧ delete_function ea h = (tt, h', [add_auto_comment ea "Delete function"])
  ∧ make_code ea h = (tt, h', [add_auto_comment ea "Create code"])
  ∧ make_data ea h = (tt, h', [add_auto_comment ea "Create data"])
  ∧ add_function ea h = (tt, h', [add_auto_comment ea "Create function"])
  ∧ change_type_information ea h
    = (tt, h', [add_auto_comment ea "Type information changed"])
  ∧ ea ∈ addresses_to_process_ h'.
Proof.
  simpl. repeat split; try done. set_solver.
Qed.

Lemma string_app_assoc (a b c : string) : (a +:+ b) +:+ c = a +:+ (b +:+ c).
Proof.
  induction a as [|x a IH]; [done|].
  change (String x ((a +:+ b) +:+ c) = String x (a +:+ b +:+ c)). by f_equal.
Qed.

(** C3: with no previous name the annotation is
    ["<type> renamed to <new>"], the label ["<type> "] being there only for
    a non-empty type.  With a previous name it is
    ["<type> renamed from <old>to <new>"]: nothing separates the old name
    from the word ["to"]. *)
Theorem C3_rename_annotation :
  (∀ ea new_name type h,
     rename ea new_name type "" h
     = (tt, set_addresses (λ s, {[ea]} ∪ s) h,
        [add_auto_comment ea (type_label type +:+ "renamed to " +:+ new_name)]))
  ∧ (∀ ea new_name type c old h,
       rename ea new_name type (String c old) h
       = (tt, set_addresses (λ s, {[ea]} ∪ s) h,
          [add_auto_comment ea
             (type_label type +:+ "renamed from " +:+ String c old
              +:+ "to " +:+ new_name)]))
  ∧ calls_of (rename 4096 "new" "function" "old") Hooks_new
    = [add_auto_comment 4096 "function renamed from oldto new"]
  ∧ calls_of (rename 4096 "new" "function" "old") Hooks_new
    ≠ [add_auto_comment 4096 "function renamed from old to new"].
Proof.
  split_and!; [| |done|done].
  - intros. unfold rename, rename_message, type_label.
    change (add_address_to_process ?a ?m h)
      with (tt, set_addresses (λ s, {[a]} ∪ s) h, [add_auto_comment a m]).
    do 3 f_equal. change (String.eqb "" "") with true. cbv iota.
    destruct (String.eqb_spec type "") as [->|_]; [done|].
    by rewrite !string_app_assoc.
  - intros. unfold rename, rename_message, type_label.
    change (add_address_to_process ?a ?m h)
      with (tt, set_addresses (λ s, {[a]} ∪ s) h, [add_auto_comment a m]).
    do 3 f_equal. change (String.eqb (String c old) "") with false. cbv iota.
    destruct (String.eqb_spec type "") as [->|_]; rewrite !string_app_assoc; done.
Qed.

(** ** Which calls each pass of [save] can make *)

Lemma elem_of_flat_map {A} (f : A → list call) (l : list A) c :
  c ∈ flat_map f l ↔ ∃ x, x ∈ l ∧ c ∈ f x.
Proof.
  rewrite list_elem_of_In, in_flat_map. setoid_rewrite list_elem_of_In. done.
Qed.

Section Passes.

Variable ida : Ida.

Lemma calls_of_save h :
  calls_of (save ida) h
  = [visit_start] ++ comment_pass h ++ structure_pass ida h
    ++ structmember_pass ida h ++ enum_pass ida h ++ address_pass h
    ++ segment_pass h
    ++ [visit_end; model_accept_xml (get_cache_folder_path ida);
        IDA_LOG_INFO "Saved in %lld seconds"].
Proof. unfold calls_of. by rewrite save_run. Qed.

(** The calls of one iteration of the first loop of [save_structures]. *)
Lemma calls_of_save_structure s h :
  calls_of (save_structure ida s) h
  = if negb (get_struc_idx ida s =? BADADDR ida) then
      [accept_struct (BADADDR ida) s]
    else if negb (get_func_by_frame ida s =? BADADDR ida) then
      [accept_struct (get_func_by_frame ida s) s;
       accept_ea (get_func_by_frame ida s)]
    else [delete_struct s].
Proof. unfold save_structure. by repeat case_match. Qed.

Lemma in_save_structure c s h :
  c ∈ calls_of (save_structure ida s) h →
  (∃ f, c = accept_struct f s) ∨ c = delete_struct s
  ∨ (c = accept_ea (get_func_by_frame ida s)
     ∧ get_struc_idx ida s = BADADDR ida
     ∧ get_func_by_frame ida s ≠ BADADDR ida).
Proof.
  rewrite calls_of_save_structure.
  destruct (N.eqb_spec (get_struc_idx ida s) (BADADDR ida));
    destruct (N.eqb_spec (get_func_by_frame ida s) (BADADDR ida)); simpl;
    rewrite ?elem_of_cons, ?elem_of_nil; naive_solver.
Qed.

Lemma in_save_structmember c e h :
  c ∈ calls_of (save_structmember ida e) h →
  (∃ f, c = accept_function f)
  ∨ (∃ ctx, c = delete_struct_member ctx e.1 e.2.2)
  ∨ (∃ ctx id, c = accept_struct_member ctx id).
Proof.
  unfold save_structmember, save_member.
  repeat case_match; unfold calls_of; simpl;
    rewrite ?elem_of_cons, ?elem_of_nil; naive_solver.
Qed.

Lemma in_save_enum c e h :
  c ∈ calls_of (save_enum ida e) h → c = delete_enum e ∨ c = accept_enum e.
Proof.
  unfold save_enum. case_match; unfold calls_of; simpl;
    rewrite ?elem_of_cons, ?elem_of_nil; naive_solver.
Qed.

Lemma in_comment_pass c h :
  c ∈ comment_pass h →
  ∃ ea, c = add_auto_comment ea "Changed comment" ∧ ea ∈ comments_to_process_ h.
Proof.
  intros (ea & -> & Hin)%list_elem_of_fmap. exists ea.
  by rewrite <- elem_of_set_iter.
Qed.

Lemma in_structure_pass c h :
  c ∈ structure_pass ida h →
  ∃ s, s ∈ structures_to_process_ h ∧ c ∈ calls_of (save_structure ida s) h.
Proof.
  intros (s & Hs & Hc)%elem_of_flat_map. exists s.
  by rewrite <- elem_of_set_iter.
Qed.

Lemma in_structmember_pass c h :
  c ∈ structmember_pass ida h →
  ∃ e, structmember_to_process_ h !! e.1 = Some e.2
       ∧ c ∈ calls_of (save_structmember ida e) h.
Proof.
  intros ([s v] & Hs & Hc)%elem_of_flat_map. exists (s, v).
  by rewrite <- elem_of_map_iter.
Qed.

Lemma in_enum_pass c h :
  c ∈ enum_pass ida h →
  ∃ e, e ∈ enums_to_process_ h ∧ c ∈ calls_of (save_enum ida e) h.
Proof.
  intros (s & Hs & Hc)%elem_of_flat_map. exists s.
  by rewrite <- elem_of_set_iter.
Qed.

Lemma in_address_pass c h :
  c ∈ address_pass h →
  ∃ ea, c = accept_ea ea
        ∧ (ea ∈ comments_to_process_ h ∨ ea ∈ addresses_to_process_ h).
Proof.
  intros (ea & -> & Hin)%list_elem_of_fmap. exists ea.
  by rewrite <- elem_of_union, <- elem_of_set_iter.
Qed.

Lemma in_segment_pass c h : c ∈ segment_pass h → ∃ ea, c = accept_segment ea.
Proof. intros (ea & -> & Hin)%list_elem_of_fmap. by eexists. Qed.

(** A call of [save] is made by one of its passes. *)
Lemma in_save c h :
  c ∈ calls_of (save ida) h ↔
  c = visit_start ∨ c ∈ comment_pass h ∨ c ∈ structure_pass ida h
  ∨ c ∈ structmember_pass ida h ∨ c ∈ enum_pass ida h ∨ c ∈ address_pass h
  ∨ c ∈ segment_pass h ∨ c = visit_end
  ∨ c = model_accept_xml (get_cache_folder_path ida)
  ∨ c = IDA_LOG_INFO "Saved in %lld seconds".
Proof.
  rewrite calls_of_save, !elem_of_app, !elem_of_cons, elem_of_nil. naive_solver.
Qed.

Lemma count_save c h :
  count c (calls_of (save ida) h)
  = (count c [visit_start] + count c (comment_pass h)
     + count c (structure_pass ida h) + count c (structmember_pass ida h)
     + count c (enum_pass ida h) + count c (address_pass h)
     + count c (segment_pass h)
     + count c [visit_end; model_accept_xml (get_cache_folder_path ida);
                IDA_LOG_INFO "Saved in %lld seconds"])%nat.
Proof. rewrite calls_of_save, !count_app. lia. Qed.

End Passes.

(** ** Structures and enums at [save] *)

Lemma save_structure_block (ida : Ida) (h : Hooks) (s : tid_t) :
  s ∈ structures_to_process_ h →
  ∃ pre post,
    calls_of (save ida) h = pre ++ calls_of (save_structure ida s) h ++ post.
Proof.
  intros Hs. rewrite calls_of_save. unfold structure_pass at 1.
  destruct (flat_map_split (λ s, calls_of (save_structure ida s) h) s
              (set_iter (structures_to_process_ h))) as (l1 & l2 & ->).
  { by apply elem_of_set_iter. }
  eexists ([visit_start] ++ comment_pass h ++ l1), _.
  rewrite <- !app_assoc. reflexivity.
Qed.

Lemma calls_of_save_enum (ida : Ida) e h :
  calls_of (save_enum ida e) h
  = if get_enum_idx ida e =? BADADDR ida then [delete_enum e]
    else [accept_enum e].
Proof. unfold save_enum. by case_match. Qed.

Lemma count_save_enum_call (ida : Ida) c h :
  (∃ e, c = delete_enum e ∨ c = accept_enum e) →
  count c (calls_of (save ida) h) = count c (enum_pass ida h).
Proof.
  intros Hc. rewrite count_save.
  rewrite (proj2 (count_zero_iff _ (comment_pass h))),
    (proj2 (count_zero_iff _ (structure_pass ida h))),
    (proj2 (count_zero_iff _ (structmember_pass ida h))),
    (proj2 (count_zero_iff _ (address_pass h))),
    (proj2 (count_zero_iff _ (segment_pass h))).
  - unfold count; simpl. repeat case_match; naive_solver lia.
  - intros ?%in_segment_pass. naive_solver.
  - intros ?%in_address_pass. naive_solver.
  - intros (? & _ & ?%in_save_structmember)%in_structmember_pass. naive_solver.
  - intros (? & _ & ?%in_save_structure)%in_structure_pass. naive_solver.
  - intros ?%in_comment_pass. naive_solver.
Qed.

(** C6: for a pending enum ID, [save] makes exactly one call out of "delete
    enum" and "accept enum" for it: one "delete enum" and no "accept enum"
    when the enum index is invalid, one "accept enum" and no "delete enum"
    when it is valid. *)
Theorem C6_enum_delete_or_accept (ida : Ida) (h : Hooks) (enum_id : enum_t) :
  enum_id ∈ enums_to_process_ h →
  let t := calls_of (save ida) h in
  if get_enum_idx ida enum_id =? BADADDR ida then
    count (delete_enum enum_id) t = 1%nat ∧ count (accept_enum enum_id) t = 0%nat
  else
    count (accept_enum enum_id) t = 1%nat ∧ count (delete_enum enum_id) t = 0%nat.
Proof.
  intros Hin t. subst t.
  rewrite !count_save_enum_call by eauto. unfold enum_pass.
  assert (Hother : ∀ c, (c = delete_enum enum_id ∨ c = accept_enum enum_id) →
            ∀ x, x ∈ set_iter (enums_to_process_ h) → x ≠ enum_id →
            count c (calls_of (save_enum ida x) h) = 0%nat).
  { intros c Hc x _ Hx. apply count_zero_iff. intros ?%in_save_enum.
    naive_solver. }
  apply elem_of_set_iter in Hin.
  rewrite !(count_flat_map_NoDup _ _ enum_id) by eauto using NoDup_set_iter.
  rewrite calls_of_save_enum.
  destruct (get_enum_idx ida enum_id =? BADADDR ida);
    unfold count; simpl; by repeat case_match.
Qed.

Lemma C6_enum_delete_or_accept_witness :
  (3 ∈ enums_to_process_ h_enums
   ∧ count (accept_enum 3) (calls_of (save ida_ex) h_enums) = 1%nat
   ∧ count (delete_enum 3) (calls_of (save ida_ex) h_enums) = 0%nat)
  ∧ (2 ∈ enums_to_process_ h_enums
     ∧ count (delete_enum 2) (calls_of (save ida_ex) h_enums) = 1%nat
     ∧ count (accept_enum 2) (calls_of (save ida_ex) h_enums) = 0%nat).
Proof.
  assert (H3 : 3 ∈ enums_to_process_ h_enums) by (by vm_compute).
  assert (H2 : 2 ∈ enums_to_process_ h_enums) by (by vm_compute).
  split; (split; [done|]).
  - exact (C6_enum_delete_or_accept ida_ex h_enums 3 H3).
  - exact (C6_enum_delete_or_accept ida_ex h_enums 2 H2).
Defined.

(** ** Structure members at [save] *)

Lemma save_structmember_block (ida : Ida) (h : Hooks) s v :
  structmember_to_process_ h !! s = Some v →
  ∃ pre post,
    calls_of (save ida) h
    = pre ++ calls_of (save_structmember ida (s, v)) h ++ post.
Proof.
  intros Hs. rewrite calls_of_save. unfold structmember_pass at 1.
  destruct (flat_map_split (λ e, calls_of (save_structmember ida e) h) (s, v)
              (map_iter (structmember_to_process_ h))) as (l1 & l2 & ->).
  { by apply elem_of_map_iter. }
  eexists ([visit_start] ++ comment_pass h ++ structure_pass ida h ++ l1), _.
  rewrite <- !app_assoc. reflexivity.
Qed.

(** C5: a pending structure-member entry with recorded offset [O > 0],
    where the database has a member at [O] and the member at [O - 1] has
    the same identifier.  The iteration of [save] for the entry makes
    "delete struct-member" for the structure and [O], with the owning
    function as context when the structure itself is gone (after "accept
    function" for a resolvable owner), and makes no "accept struct-member";
    these calls sit as a block in the calls of [save]. *)
Theorem C5_member_overlap
    (ida : Ida) (h : Hooks) (struct_id member_id : tid_t) (O : ea_t)
    (ida_member ida_prev_member : member_t.t) :
  structmember_to_process_ h !! struct_id = Some (member_id, O) →
  0 < O →
  get_member ida (get_struc ida struct_id) O = Some ida_member →
  get_member ida (get_struc ida struct_id) (O - 1) = Some ida_prev_member →
  member_t.id ida_prev_member = member_t.id ida_member →
  let gone :=
    negb (non_null (get_struc ida struct_id))
    || (get_struc_idx ida struct_id =? BADADDR ida) in
  let func_ea := get_func_by_frame ida struct_id in
  let stackframe_func_addr := if gone then func_ea else BADADDR ida in
  let entry := calls_of (save_structmember ida (struct_id, (member_id, O))) h in
  entry
  = (if gone && negb (func_ea =? BADADDR ida)
     then [accept_function func_ea] else [])
    ++ [delete_struct_member stackframe_func_addr struct_id O]
  ∧ (∀ ctx id, accept_struct_member ctx id ∉ entry)
  ∧ ∃ pre post, calls_of (save ida) h = pre ++ entry ++ post.
Proof.
  intros Hpend Hpos Hm Hp Hid gone func_ea ctx entry.
  assert (Hentry : entry
    = (if gone && negb (func_ea =? BADADDR ida)
       then [accept_function func_ea] else [])
      ++ [delete_struct_member ctx struct_id O]).
  { subst entry ctx. unfold save_structmember, save_member. simpl.
    fold gone func_ea. rewrite Hm, Hp, Hid, N.eqb_refl.
    apply N.ltb_lt in Hpos as ->.
    destruct gone; simpl; [|by case_match].
    destruct (N.eqb_spec func_ea (BADADDR ida)) as [->|_]; simpl; [done|].
    by case_match. }
  split; [exact Hentry|split].
  - intros c id. rewrite Hentry.
    destruct (gone && negb (func_ea =? BADADDR ida)); set_solver.
  - by apply save_structmember_block.
Qed.

Lemma C5_member_overlap_witness :
  (structmember_to_process_ h_members !! 7 = Some (100, 2)
   ∧ 0 < 2
   ∧ get_member ida_ex (get_struc ida_ex 7) 2 = Some (member_t.mk 100)
   ∧ get_member ida_ex (get_struc ida_ex 7) (2 - 1) = Some (member_t.mk 100)
   ∧ calls_of (save_structmember ida_ex (7, (100, 2))) h_members
     = [delete_struct_member (BADADDR ida_ex) 7 2])
  ∧ (structmember_to_process_ h_members !! 9 = Some (100, 2)
     ∧ calls_of (save_structmember ida_ex (9, (100, 2))) h_members
       = [accept_function 5; delete_struct_member 5 9 2]).
Proof.
  assert (H7 : structmember_to_process_ h_members !! 7 = Some (100, 2))
    by (by vm_compute).
  assert (H9 : structmember_to_process_ h_members !! 9 = Some (100, 2))
    by (by vm_compute).
  split.
  - split_and!; [done|lia|done|done|].
    exact (proj1 (C5_member_overlap ida_ex h_members 7 100 2
                    (member_t.mk 100) (member_t.mk 100)
                    H7 eq_refl eq_refl eq_refl eq_refl)).
  - split; [done|].
    exact (proj1 (C5_member_overlap ida_ex h_members 9 100 2
                    (member_t.mk 100) (member_t.mk 100)
                    H9 eq_refl eq_refl eq_refl eq_refl)).
Defined.

(** ** Pending addresses and comments at [save] *)

Lemma set_iter_insert (s : gset N) x :
  x ∉ s → set_iter ({[x]} ∪ s) ≡ₚ x :: set_iter s.
Proof.
  intros Hx. rewrite !set_iter_perm. by apply elements_union_singleton.
Qed.

Lemma count_Permutation c t1 t2 : t1 ≡ₚ t2 → count c t1 = count c t2.
Proof.
  intros Hp. unfold count.
  by apply (proj1 (Permutation_count_occ call_eq_dec t1 t2)).
Qed.

#[local] Instance accept_ea_inj : Inj (=) (=) accept_ea.
Proof. by intros ?? [= ->]. Qed.

Section Addresses.

Variable ida : Ida.

Lemma structure_pass_indep h h' :
  structures_to_process_ h = structures_to_process_ h' →
  structure_pass ida h = structure_pass ida h'.
Proof.
  intros Heq. unfold structure_pass. rewrite Heq. apply flat_map_ext.
  intros s. apply save_structure_calls_indep.
Qed.

Lemma structmember_pass_indep h h' :
  structmember_to_process_ h = structmember_to_process_ h' →
  structmember_pass ida h = structmember_pass ida h'.
Proof.
  intros Heq. unfold structmember_pass. rewrite Heq. apply flat_map_ext.
  intros s. apply save_structmember_calls_indep.
Qed.

Lemma enum_pass_indep h h' :
  enums_to_process_ h = enums_to_process_ h' →
  enum_pass ida h = enum_pass ida h'.
Proof.
  intros Heq. unfold enum_pass. rewrite Heq. apply flat_map_ext.
  intros s. apply save_enum_calls_indep.
Qed.

Lemma count_address_pass h ea :
  count (accept_ea ea) (address_pass h)
  = if bool_decide (ea ∈ comments_to_process_ h ∪ addresses_to_process_ h)
    then 1%nat else 0%nat.
Proof.
  unfold address_pass. case_bool_decide as Hin.
  - apply (count_fmap_NoDup accept_ea); [apply NoDup_set_iter|].
    by apply elem_of_set_iter.
  - apply count_zero_iff. intros (x & [= <-] & Hx)%list_elem_of_fmap.
    by apply elem_of_set_iter in Hx.
Qed.

(** "accept address" is a call of the address pass or of the structure pass. *)
Lemma count_accept_ea_save h ea :
  count (accept_ea ea) (calls_of (save ida) h)
  = (count (accept_ea ea) (structure_pass ida h)
     + count (accept_ea ea) (address_pass h))%nat.
Proof.
  rewrite count_save.
  rewrite (proj2 (count_zero_iff _ (comment_pass h))),
    (proj2 (count_zero_iff _ (structmember_pass ida h))),
    (proj2 (count_zero_iff _ (enum_pass ida h))),
    (proj2 (count_zero_iff _ (segment_pass h))).
  - rewrite (proj2 (count_zero_iff _ [visit_start])),
      (proj2 (count_zero_iff _ [visit_end; _; _])); [lia|..];
      rewrite !elem_of_cons, elem_of_nil; naive_solver.
  - intros ?%in_segment_pass. naive_solver.
  - intros (? & _ & ?%in_save_enum)%in_enum_pass. naive_solver.
  - intros (? & _ & ?%in_save_structmember)%in_structmember_pass. naive_solver.
  - intros ?%in_comment_pass. naive_solver.
Qed.

(** What registering one more pending address adds to the calls of [save]:
    one "accept address", in the address pass. *)
Lemma save_insert_address h ea :
  ea ∉ comments_to_process_ h → ea ∉ addresses_to_process_ h →
  calls_of (save ida) (set_addresses (λ s, {[ea]} ∪ s) h)
  ≡ₚ accept_ea ea :: calls_of (save ida) h.
Proof.
  intros Hc Ha. set (h1 := set_addresses _ h).
  rewrite !calls_of_save.
  rewrite (structure_pass_indep h1 h), (structmember_pass_indep h1 h),
    (enum_pass_indep h1 h) by done.
  assert (address_pass h1 ≡ₚ accept_ea ea :: address_pass h) as ->.
  { unfold address_pass. simpl.
    replace (comments_to_process_ h ∪ ({[ea]} ∪ addresses_to_process_ h))
      with ({[ea]} ∪ (comments_to_process_ h ∪ addresses_to_process_ h))
      by set_solver.
    rewrite set_iter_insert by set_solver. done. }
  change (comment_pass h1) with (comment_pass h).
  change (segment_pass h1) with (segment_pass h).
  simpl. rewrite <- !Permutation_middle. apply perm_swap.
Qed.

(** What registering one more pending comment adds to the calls of [save]:
    its annotation in the comment pass and one "accept address" in the
    address pass. *)
Lemma save_insert_comment h ea :
  ea ∉ comments_to_process_ h → ea ∉ addresses_to_process_ h →
  calls_of (save ida) (set_comments (λ s, {[ea]} ∪ s) h)
  ≡ₚ add_auto_comment ea "Changed comment" :: accept_ea ea
     :: calls_of (save ida) h.
Proof.
  intros Hc Ha. set (h1 := set_comments _ h).
  rewrite !calls_of_save.
  rewrite (structure_pass_indep h1 h), (structmember_pass_indep h1 h),
    (enum_pass_indep h1 h) by done.
  assert (address_pass h1 ≡ₚ accept_ea ea :: address_pass h) as ->.
  { unfold address_pass. simpl.
    replace ({[ea]} ∪ comments_to_process_ h ∪ addresses_to_process_ h)
      with ({[ea]} ∪ (comments_to_process_ h ∪ addresses_to_process_ h))
      by set_solver.
    rewrite set_iter_insert by set_solver. done. }
  assert (comment_pass h1
          ≡ₚ add_auto_comment ea "Changed comment" :: comment_pass h) as ->.
  { unfold comment_pass. simpl. by rewrite set_iter_insert. }
  change (segment_pass h1) with (segment_pass h).
  simpl. rewrite <- !Permutation_middle.
  etrans; [apply perm_swap|]. apply perm_skip, perm_swap.
Qed.

End Addresses.

(** ** Repeated registrations *)

Section Repeat.

Variable ida : Ida.

Lemma intake_call_idem (i : intake) h :
  state_of (intake_call ida i) (state_of (intake_call ida i) h)
  = state_of (intake_call ida i) h.
Proof.
  destruct i; simpl; unfold state_of;
    try (simpl; unfold set_addresses, set_comments, set_structures, set_enums,
           set_segments; simpl; f_equal; set_solver).
  - simpl. unfold set_structmember; simpl. f_equal. apply insert_insert_eq.
  - simpl. unfold set_structmember; simpl. f_equal. apply insert_insert_eq.
  - unfold change_operand_type.
    destruct (non_null (get_func ida ea) || is_code ida (get_flags ida ea));
      [|by destruct (is_member_id ida ea)].
    simpl. unfold set_addresses; simpl. f_equal. set_solver.
Qed.

Lemma intake_call_repeat (i : intake) (n : nat) h :
  (1 ≤ n)%nat →
  state_of (for_each (replicate n i) (intake_call ida)) h
  = state_of (intake_call ida i) h.
Proof.
  intros Hn. destruct n as [|n]; [lia|clear Hn].
  revert h. induction n as [|n IH]; intros h.
  - simpl. by rewrite state_of_bind.
  - change (replicate (S (S n)) i) with (i :: replicate (S n) i).
    simpl for_each. rewrite state_of_bind, IH. apply intake_call_idem.
Qed.

Lemma address_mutation_state (i : intake) ea h :
  address_mutation i = Some ea →
  state_of (intake_call ida i) h = set_addresses (λ s, {[ea]} ∪ s) h.
Proof. destruct i; intros [= <-]; reflexivity. Qed.

End Repeat.

(** ** Member edits: the last one registered for a structure wins *)

Lemma state_of_for_each_app {A} (body : A → M unit) (l1 l2 : list A) h :
  state_of (for_each (l1 ++ l2) body) h
  = state_of (for_each l2 body) (state_of (for_each l1 body) h).
Proof.
  revert h. induction l1 as [|x l1 IH]; intros h; [done|].
  simpl. by rewrite !state_of_bind, IH.
Qed.

Lemma structmember_intake_call (ida : Ida) (i : intake) h :
  structmember_to_process_ (state_of (intake_call ida i) h)
  = match member_edit i with
    | Some (s, v) => <[s := v]> (structmember_to_process_ h)
    | None => structmember_to_process_ h
    end.
Proof.
  destruct i; try reflexivity.
  simpl. unfold change_operand_type. by repeat case_match.
Qed.

Lemma structmember_other_calls (ida : Ida) (l : list intake) struct_id h :
  forallb (λ i, negb (edits_structure struct_id i)) l = true →
  structmember_to_process_ (state_of (for_each l (intake_call ida)) h)
    !! struct_id
  = structmember_to_process_ h !! struct_id.
Proof.
  revert h. induction l as [|i l IH]; intros h; [done|].
  simpl. intros [Hi Hl]%andb_true_iff. rewrite state_of_bind, IH by done.
  rewrite structmember_intake_call. unfold edits_structure in Hi.
  destruct (member_edit i) as [[s v]|]; [|done].
  apply negb_true_iff, N.eqb_neq in Hi. by rewrite lookup_insert_ne.
Qed.

Lemma filter_key_absent {T} (l : list (N * T)) k :
  k ∉ l.*1 → filter (λ x, x.1 = k) l = [].
Proof.
  induction l as [|[k' v'] l IH]; [done|].
  rewrite fmap_cons, not_elem_of_cons. simpl. intros [Hk Hl].
  rewrite filter_cons_False by (simpl; congruence). by apply IH.
Qed.

Lemma filter_key_NoDup {T} (l : list (N * T)) k v :
  NoDup (l.*1) → (k, v) ∈ l → filter (λ x, x.1 = k) l = [(k, v)].
Proof.
  induction l as [|[k' v'] l IH]; [by intros _ ?%elem_of_nil|].
  rewrite fmap_cons, NoDup_cons. simpl. intros [Hk' Hnd] Hin.
  apply elem_of_cons in Hin as [[= <- <-]|Hin].
  - rewrite filter_cons_True by done. f_equal. by apply filter_key_absent.
  - rewrite filter_cons_False; [by apply IH|].
    simpl. intros ->. apply Hk', list_elem_of_fmap. by exists (k, v).
Qed.

(** * Further properties of the tracker *)

(** ** The shape of one [save] *)

Lemma set_iter_nil_inv (s : gset N) : set_iter s = [] → s = ∅.
Proof.
  intros Hnil. apply set_eq. intros x.
  rewrite <- elem_of_set_iter, Hnil. set_solver.
Qed.

Lemma flat_map_nil_inv {A} (f : A → list call) (l : list A) :
  (∀ x, f x ≠ []) → flat_map f l = [] → l = [].
Proof.
  intros Hf. destruct l as [|x l]; [done|]. simpl.
  intros [Hx _]%app_eq_nil. by apply Hf in Hx.
Qed.

Lemma save_structure_nonempty (ida : Ida) s h :
  calls_of (save_structure ida s) h ≠ [].
Proof. rewrite calls_of_save_structure. by repeat case_match. Qed.

Lemma save_structmember_nonempty (ida : Ida) e h :
  calls_of (save_structmember ida e) h ≠ [].
Proof. unfold save_structmember, save_member. by repeat case_match. Qed.

Lemma save_enum_nonempty (ida : Ida) e h : calls_of (save_enum ida e) h ≠ [].
Proof. rewrite calls_of_save_enum. by case_match. Qed.

(** X1: a second [save] without [flush] in between repeats the first: it
    leaves the state the first one left and makes the same calls again,
    the "Changed comment" annotations included. *)
Theorem save_again (ida : Ida) (h : Hooks) :
  let h1 := state_of (save ida) h in
  state_of (save ida) h1 = h1
  ∧ calls_of (save ida) h1 = calls_of (save ida) h.
Proof.
  intros h1.
  assert (Hh1 : h1 = set_addresses (λ s, comments_to_process_ h ∪ s) h).
  { unfold h1, state_of. by rewrite save_run. }
  split.
  - unfold state_of. rewrite save_run. simpl. rewrite Hh1.
    unfold set_addresses; simpl. f_equal. set_solver.
  - rewrite !calls_of_save.
    rewrite (structure_pass_indep ida h1 h), (structmember_pass_indep ida h1 h),
      (enum_pass_indep ida h1 h) by (by rewrite Hh1).
    assert (comment_pass h1 = comment_pass h) as -> by (by rewrite Hh1).
    assert (segment_pass h1 = segment_pass h) as -> by (by rewrite Hh1).
    assert (address_pass h1 = address_pass h) as ->; [|done].
    rewrite Hh1. unfold address_pass. simpl. do 2 f_equal. set_solver.
Qed.

(** X2: [save] makes no call besides "visit start", "visit end", the XML
    export and the log line exactly when the six containers it reads are
    empty; the enum-member map plays no part. *)
Theorem save_nothing_pending (ida : Ida) (h : Hooks) :
  calls_of (save ida) h
  = [visit_start; visit_end; model_accept_xml (get_cache_folder_path ida);
     IDA_LOG_INFO "Saved in %lld seconds"]
  ↔ addresses_to_process_ h = ∅ ∧ structures_to_process_ h = ∅
    ∧ structmember_to_process_ h = ∅ ∧ enums_to_process_ h = ∅
    ∧ comments_to_process_ h = ∅ ∧ segments_to_process_ h = ∅.
Proof.
  rewrite calls_of_save. split.
  - intros Heq.
    assert (Hlen : (length (comment_pass h) + length (structure_pass ida h)
              + length (structmember_pass ida h) + length (enum_pass ida h)
              + length (address_pass h) + length (segment_pass h) = 0)%nat).
    { apply (f_equal length) in Heq. rewrite !length_app in Heq.
      simpl in Heq. lia. }
    unfold comment_pass, address_pass, segment_pass in Hlen.
    rewrite !length_fmap in Hlen.
    apply Nat.eq_add_0 in Hlen as [Hlen Hsg%nil_length_inv].
    apply Nat.eq_add_0 in Hlen as [Hlen Hap%nil_length_inv%set_iter_nil_inv].
    apply Nat.eq_add_0 in Hlen as [Hlen Hep%nil_length_inv].
    apply Nat.eq_add_0 in Hlen as [Hlen Hmp%nil_length_inv].
    apply Nat.eq_add_0 in Hlen
      as [Hcp%nil_length_inv%set_iter_nil_inv Hsp%nil_length_inv].
    split_and!; [set_solver| | | |done|].
    + apply set_iter_nil_inv.
      by apply (flat_map_nil_inv (λ s, calls_of (save_structure ida s) h));
        [intros; apply save_structure_nonempty|].
    + apply map_to_list_empty_iff, Permutation_nil_r.
      rewrite <- map_iter_perm.
      by rewrite (flat_map_nil_inv (λ e, calls_of (save_structmember ida e) h)
                    (map_iter (structmember_to_process_ h)));
        [|intros; apply save_structmember_nonempty|].
    + apply set_iter_nil_inv.
      by apply (flat_map_nil_inv (λ s, calls_of (save_enum ida s) h));
        [intros; apply save_enum_nonempty|].
    + apply leibniz_equiv, elements_empty_iff, Permutation_nil_r.
      by rewrite <- (merge_sort_Permutation tuple_le), <- Hsg.
  - intros (Ha & Hs & Hm & He & Hc & Hg).
    unfold comment_pass, structure_pass, structmember_pass, enum_pass,
      address_pass, segment_pass, map_iter, tuple_set_iter.
    rewrite Ha, Hs, Hm, He, Hc, Hg, (left_id_L ∅ (∪)). reflexivity.
Qed.

(** ** Which exports [save] makes *)

Lemma in_segment_pass_iff c h :
  c ∈ segment_pass h ↔
  ∃ segment_ea, segment_ea ∈ segments_to_process_ h
                ∧ c = accept_segment segment_ea.1.
Proof.
  unfold segment_pass, tuple_set_iter. rewrite list_elem_of_fmap.
  setoid_rewrite (merge_sort_Permutation tuple_le).
  setoid_rewrite elem_of_elements. naive_solver.
Qed.

Lemma in_save_structmember_detail (ida : Ida) c s m o h :
  c ∈ calls_of (save_structmember ida (s, (m, o))) h →
  (c = accept_function (get_func_by_frame ida s)
   ∧ get_func_by_frame ida s ≠ BADADDR ida)
  ∨ (∃ ctx, c = delete_struct_member ctx s o)
  ∨ (∃ ctx ida_member,
       c = accept_struct_member ctx (member_t.id ida_member)
       ∧ get_member ida (get_struc ida s) o = Some ida_member).
Proof.
  unfold save_structmember, save_member. simpl.
  destruct (N.eqb_spec (get_func_by_frame ida s) (BADADDR ida));
    repeat case_match; unfold calls_of; simpl;
    rewrite ?elem_of_cons, ?elem_of_nil; naive_solver.
Qed.

(** X3: [save] exports nothing that is not pending.  Each call it makes
    on the incremental model is tied to a pending entry: a structure or
    enum call to a pending structure or enum ID, a member call to an entry
    of the structure-member map (with the recorded offset, or the member
    the database has there), "accept function" to the owner of such a
    structure, "accept segment" to the start of a pending segment, and
    "accept address" to a pending address or comment or to the owner of a
    pending frame. *)
Theorem save_exports_only_pending (ida : Ida) (h : Hooks) (c : call) :
  c ∈ calls_of (save ida) h →
  match c with
  | accept_ea ea =>
      ea ∈ comments_to_process_ h ∨ ea ∈ addresses_to_process_ h
      ∨ ∃ s, s ∈ structures_to_process_ h ∧ owned_frame ida ea s = true
  | accept_segment ea => ∃ end_ea, (ea, end_ea) ∈ segments_to_process_ h
  | accept_function ea =>
      ∃ s, is_Some (structmember_to_process_ h !! s)
           ∧ get_func_by_frame ida s = ea ∧ ea ≠ BADADDR ida
  | accept_struct _ s | delete_struct s => s ∈ structures_to_process_ h
  | accept_struct_member _ id =>
      ∃ s m o ida_member,
        structmember_to_process_ h !! s = Some (m, o)
        ∧ get_member ida (get_struc ida s) o = Some ida_member
        ∧ member_t.id ida_member = id
  | delete_struct_member _ s o =>
      ∃ m, structmember_to_process_ h !! s = Some (m, o)
  | accept_enum e | delete_enum e => e ∈ enums_to_process_ h
  | _ => True
  end.
Proof.
  intros Hc. apply in_save in Hc.
  destruct Hc as [->|[Hc%in_comment_pass|[Hc|[Hc|[Hc|[Hc%in_address_pass|
    [Hc%in_segment_pass_iff|[->|[->| ->]]]]]]]]]; try done.
  - by destruct Hc as (ea & -> & _).
  - apply in_structure_pass in Hc as (s & Hs & Hc%in_save_structure).
    destruct Hc as [[f ->]|[->|(-> & Hidx & Hown)]]; [done..|].
    right; right. exists s. split; [done|]. unfold owned_frame.
    rewrite Hidx, !N.eqb_refl. simpl. rewrite andb_true_r.
    by apply negb_true_iff, N.eqb_neq.
  - apply in_structmember_pass in Hc as ([s [m o]] & Hs & Hc). simpl in Hs.
    apply in_save_structmember_detail in Hc
      as [[-> Hown]|[[ctx ->]|(ctx & mb & -> & Hmb)]]; eauto 10.
  - apply in_enum_pass in Hc as (e & He & [->| ->]%in_save_enum); done.
  - destruct Hc as (ea & -> & [?|?]); eauto.
  - destruct Hc as ([a e] & Hin & ->). simpl. eauto.
Qed.

Lemma save_exports_only_pending_witness :
  accept_ea 5 ∈ calls_of (save ida_ex) h_mixed
  ∧ (5 ∈ comments_to_process_ h_mixed ∨ 5 ∈ addresses_to_process_ h_mixed
     ∨ ∃ s, s ∈ structures_to_process_ h_mixed
            ∧ owned_frame ida_ex 5%N s = true).
Proof.
  assert (H : accept_ea 5 ∈ calls_of (save ida_ex) h_mixed).
  { apply (bool_decide_unpack _). by vm_compute. }
  split; [done|]. exact (save_exports_only_pending ida_ex h_mixed _ H).
Defined.

(** ** Structures that are still there *)

Lemma count_save_struct_call (ida : Ida) c h :
  (∃ f s, c = accept_struct f s) ∨ (∃ s, c = delete_struct s) →
  count c (calls_of (save ida) h) = count c (structure_pass ida h).
Proof.
  intros Hc. rewrite count_save.
  rewrite (proj2 (count_zero_iff _ (comment_pass h))),
    (proj2 (count_zero_iff _ (structmember_pass ida h))),
    (proj2 (count_zero_iff _ (enum_pass ida h))),
    (proj2 (count_zero_iff _ (address_pass h))),
    (proj2 (count_zero_iff _ (segment_pass h))).
  - rewrite (proj2 (count_zero_iff _ [visit_start])),
      (proj2 (count_zero_iff _ [visit_end; _; _])); [lia|..];
      rewrite !elem_of_cons, elem_of_nil; naive_solver.
  - intros ?%in_segment_pass. naive_solver.
  - intros ?%in_address_pass. naive_solver.
  - intros (? & _ & ?%in_save_enum)%in_enum_pass. naive_solver.
  - intros (? & _ & ?%in_save_structmember)%in_structmember_pass. naive_solver.
  - intros ?%in_comment_pass. naive_solver.
Qed.

(** X5: a pending structure ID that still has a structure index gets, in
    all of [save], exactly one structure call: "accept struct" without
    function context.  Its owner is not looked up: no "accept struct" with
    another context and no "delete struct" is made for it. *)
Theorem live_structure (ida : Ida) (h : Hooks) (struct_id : tid_t) :
  struct_id ∈ structures_to_process_ h →
  get_struc_idx ida struct_id ≠ BADADDR ida →
  let t := calls_of (save ida) h in
  calls_of (save_structure ida struct_id) h
  = [accept_struct (BADADDR ida) struct_id]
  ∧ count (accept_struct (BADADDR ida) struct_id) t = 1%nat
  ∧ (∀ f, f ≠ BADADDR ida → count (accept_struct f struct_id) t = 0%nat)
  ∧ count (delete_struct struct_id) t = 0%nat.
Proof.
  intros Hin Hidx t. subst t.
  pose proof (calls_of_save_structure ida struct_id h) as Hcalls.
  apply N.eqb_neq in Hidx. rewrite Hidx in Hcalls. simpl in Hcalls.
  apply elem_of_set_iter in Hin.
  assert (Hother : ∀ c,
            (∃ f, c = accept_struct f struct_id) ∨ c = delete_struct struct_id →
            count c (structure_pass ida h)
            = count c [accept_struct (BADADDR ida) struct_id]).
  { intros c Hc. unfold structure_pass.
    rewrite (count_flat_map_NoDup _ _ struct_id), ?Hcalls;
      [done|apply NoDup_set_iter|done|].
    intros x _ Hx. apply count_zero_iff. intros ?%in_save_structure.
    naive_solver. }
  split_and!; [done|..].
  - rewrite count_save_struct_call, Hother by eauto.
    unfold count; simpl. by case_match.
  - intros f Hf. rewrite count_save_struct_call, Hother by eauto.
    unfold count; simpl. case_match; [congruence|done].
  - rewrite count_save_struct_call, Hother by eauto.
    unfold count; simpl. by repeat case_match.
Qed.

Lemma live_structure_witness :
  7 ∈ structures_to_process_ (state_of (update_structure 7) Hooks_new)
  ∧ get_struc_idx ida_ex 7 ≠ BADADDR ida_ex
  ∧ count (accept_struct (BADADDR ida_ex) 7)
      (calls_of (save ida_ex) (state_of (update_structure 7) Hooks_new))
    = 1%nat.
Proof.
  assert (H7 : 7 ∈ structures_to_process_
                     (state_of (update_structure 7) Hooks_new)).
  { apply (bool_decide_unpack _). by vm_compute. }
  assert (Hidx : get_struc_idx ida_ex 7 ≠ BADADDR ida_ex).
  { intros Heq. vm_compute in Heq. discriminate. }
  split; [done|split; [done|]].
  apply (live_structure ida_ex _ 7 H7 Hidx).
Defined.

(** ** Member entries: the other outcomes *)

(** X6: the iteration of [save] for an entry of the structure-member map
    settles the entry with exactly one member call, "delete struct-member"
    or "accept struct-member"; the only other call it can make is one
    "accept function", first, for the owner of a structure that is gone. *)
Theorem member_entry_one_verdict
    (ida : Ida) (h : Hooks) (struct_id member_id : tid_t) (offset : ea_t) :
  let entry :=
    calls_of (save_structmember ida (struct_id, (member_id, offset))) h in
  ∃ verdict,
    is_member_call verdict = true
    ∧ (entry = [verdict]
       ∨ (entry = [accept_function (get_func_by_frame ida struct_id); verdict]
          ∧ get_func_by_frame ida struct_id ≠ BADADDR ida
          ∧ (get_struc ida struct_id = None
             ∨ get_struc_idx ida struct_id = BADADDR ida))).
Proof.
  unfold save_structmember, save_member. simpl.
  destruct (get_struc ida struct_id) as [st|] eqn:Hst; simpl;
    destruct (N.eqb_spec (get_struc_idx ida struct_id) (BADADDR ida));
    destruct (N.eqb_spec (get_func_by_frame ida struct_id) (BADADDR ida));
    simpl; repeat case_match; unfold calls_of; simpl;
    eexists; (split; [|eauto 6]); done.
Qed.

(** X7: a pending member of a structure that is gone (null structure or
    no structure index) and is no function's frame: the iteration makes
    exactly "delete struct-member" for the recorded offset, without
    function context, whatever members the database reports. *)
Theorem member_of_deleted_structure
    (ida : Ida) (h : Hooks) (struct_id member_id : tid_t) (offset : ea_t) :
  get_struc ida struct_id = None
  ∨ get_struc_idx ida struct_id = BADADDR ida →
  get_func_by_frame ida struct_id = BADADDR ida →
  calls_of (save_structmember ida (struct_id, (member_id, offset))) h
  = [delete_struct_member (BADADDR ida) struct_id offset].
Proof.
  intros Hgone Hown. unfold save_structmember. simpl.
  rewrite Hown, N.eqb_refl.
  destruct Hgone as [->| ->]; simpl; [done|].
  by rewrite N.eqb_refl, orb_true_r.
Qed.

Lemma member_of_deleted_structure_witness :
  (get_struc ida_ex 11 = None ∨ get_struc_idx ida_ex 11 = BADADDR ida_ex)
  ∧ get_func_by_frame ida_ex 11 = BADADDR ida_ex
  ∧ calls_of (save_structmember ida_ex (11, (100, 3))) Hooks_new
    = [delete_struct_member (BADADDR ida_ex) 11 3].
Proof.
  split; [by left|split; [done|]].
  exact (member_of_deleted_structure ida_ex Hooks_new 11 100 3
           (or_introl eq_refl) eq_refl).
Defined.

(** The function context of a member call: the owner when the structure
    is gone, none otherwise. *)
Lemma save_structmember_resolved (ida : Ida) s m o h :
  ¬ ((get_struc ida s = None ∨ get_struc_idx ida s = BADADDR ida)
     ∧ get_func_by_frame ida s = BADADDR ida) →
  let gone :=
    negb (non_null (get_struc ida s)) || (get_struc_idx ida s =? BADADDR ida) in
  let ctx := if gone then get_func_by_frame ida s else BADADDR ida in
  calls_of (save_structmember ida (s, (m, o))) h
  = (if gone then [accept_function (get_func_by_frame ida s)] else [])
    ++ calls_of (save_member ida (get_struc ida s) ctx s o) h.
Proof.
  intros Hres gone ctx. unfold save_structmember. simpl. fold gone.
  destruct gone eqn:Hgone; [|done].
  destruct (N.eqb_spec (get_func_by_frame ida s) (BADADDR ida)) as [Hown|_].
  - destruct Hres. split; [|done]. unfold gone in Hgone.
    apply orb_true_iff in Hgone as [Hnull|Hidx%N.eqb_eq]; [left|by right].
    by destruct (get_struc ida s).
  - subst ctx. by rewrite calls_of_bind.
Qed.

(** X8: a pending member entry whose structure is resolved (it is there,
    or it is a function's frame), where the database has no member at the
    recorded offset or one whose id is [-1]: the iteration ends with
    "delete struct-member" for the recorded offset, in the function context
    of a frame, and makes no "accept struct-member". *)
Theorem member_missing
    (ida : Ida) (h : Hooks) (struct_id member_id : tid_t) (offset : ea_t) :
  ¬ ((get_struc ida struct_id = None
      ∨ get_struc_idx ida struct_id = BADADDR ida)
     ∧ get_func_by_frame ida struct_id = BADADDR ida) →
  get_member ida (get_struc ida struct_id) offset = None
  ∨ (∃ ida_member,
       get_member ida (get_struc ida struct_id) offset = Some ida_member
       ∧ member_t.id ida_member = BADADDR ida) →
  let gone :=
    negb (non_null (get_struc ida struct_id))
    || (get_struc_idx ida struct_id =? BADADDR ida) in
  let stackframe_func_addr :=
    if gone then get_func_by_frame ida struct_id else BADADDR ida in
  calls_of (save_structmember ida (struct_id, (member_id, offset))) h
  = (if gone then [accept_function (get_func_by_frame ida struct_id)] else [])
    ++ [delete_struct_member stackframe_func_addr struct_id offset].
Proof.
  intros Hres Hmiss gone ctx. rewrite save_structmember_resolved by done.
  fold gone ctx. f_equal. unfold save_member.
  destruct Hmiss as [->|(mb & -> & ->)]; [done|]. by rewrite N.eqb_refl.
Qed.

Lemma member_missing_witness :
  get_member ida_ex (get_struc ida_ex 7) 12 = None
  ∧ calls_of (save_structmember ida_ex (7, (101, 12))) Hooks_new
    = [delete_struct_member (BADADDR ida_ex) 7 12]
  ∧ calls_of (save_structmember ida_ex (9, (101, 12))) Hooks_new
    = [accept_function 5; delete_struct_member 5 9 12].
Proof.
  split; [done|]. split.
  - apply (member_missing ida_ex Hooks_new 7 101 12).
    + intros [[H|H] _]; vm_compute in H; discriminate.
    + by left.
  - apply (member_missing ida_ex Hooks_new 9 101 12).
    + intros [_ H]; vm_compute in H; discriminate.
    + by left.
Defined.

(** X9: a pending member entry whose structure is resolved, where the
    database has a member with a valid id at the recorded offset and that
    member does not also cover the offset before: the iteration ends with
    "accept struct-member" for the member found, in the function context of
    a frame, and makes no "delete struct-member".  At offset 0 there is no
    offset before, and the member found is always accepted. *)
Theorem member_updated
    (ida : Ida) (h : Hooks) (struct_id member_id : tid_t) (offset : ea_t)
    (ida_member : member_t.t) :
  ¬ ((get_struc ida struct_id = None
      ∨ get_struc_idx ida struct_id = BADADDR ida)
     ∧ get_func_by_frame ida struct_id = BADADDR ida) →
  get_member ida (get_struc ida struct_id) offset = Some ida_member →
  member_t.id ida_member ≠ BADADDR ida →
  (∀ ida_prev_member,
     0 < offset →
     get_member ida (get_struc ida struct_id) (offset - 1)
     = Some ida_prev_member →
     member_t.id ida_prev_member ≠ member_t.id ida_member) →
  let gone :=
    negb (non_null (get_struc ida struct_id))
    || (get_struc_idx ida struct_id =? BADADDR ida) in
  let stackframe_func_addr :=
    if gone then get_func_by_frame ida struct_id else BADADDR ida in
  calls_of (save_structmember ida (struct_id, (member_id, offset))) h
  = (if gone then [accept_function (get_func_by_frame ida struct_id)] else [])
    ++ [accept_struct_member stackframe_func_addr (member_t.id ida_member)].
Proof.
  intros Hres Hmb Hid Hprev gone ctx. rewrite save_structmember_resolved by done.
  fold gone ctx. f_equal. unfold save_member. rewrite Hmb.
  apply N.eqb_neq in Hid. rewrite Hid.
  destruct (N.ltb_spec 0 offset) as [Hpos|_]; [|done].
  destruct (get_member ida (get_struc ida struct_id) (offset - 1))
    as [prev|] eqn:Hp; [|done].
  specialize (Hprev prev Hpos eq_refl). apply N.eqb_neq in Hprev.
  by rewrite Hprev.
Qed.

Lemma member_updated_witness :
  calls_of (save_structmember ida_ex (7, (101, 4))) Hooks_new
  = [accept_struct_member (BADADDR ida_ex) 101]
  ∧ calls_of (save_structmember ida_ex (9, (100, 0))) Hooks_new
    = [accept_function 5; accept_struct_member 5 100].
Proof.
  split.
  - apply (member_updated ida_ex Hooks_new 7 101 4 (member_t.mk 101)).
    + intros [[H|H] _]; vm_compute in H; discriminate.
    + done.
    + intros H; vm_compute in H; discriminate.
    + intros prev _ [= <-]. intros H; vm_compute in H; discriminate.
  - apply (member_updated ida_ex Hooks_new 9 100 0 (member_t.mk 100)).
    + intros [_ H]; vm_compute in H; discriminate.
    + done.
    + intros H; vm_compute in H; discriminate.
    + intros prev Hpos. by vm_compute in Hpos.
Defined.

(** ** What [save] reads of the structure-member map *)

#[local] Instance key_le_trans {T} : Transitive (@key_le T).
Proof. intros x y z. unfold key_le. lia. Qed.

#[local] Instance key_le_total {T} : Total (@key_le T).
Proof. intros x y. unfold key_le. lia. Qed.

Lemma map_iter_fmap {T U} (φ : T → U) (m : gmap N T) :
  map_iter (φ <$> m) = prod_map id φ <$> map_iter m.
Proof.
  apply (Sorted_unique_strong key_le).
  - intros [k1 v1] [k2 v2] H1 H2 Hle1 Hle2. unfold key_le in *. simpl in *.
    assert (k1 = k2) as -> by lia. f_equal.
    apply elem_of_map_iter in H1.
    apply list_elem_of_fmap in H2 as ([k v] & [= -> ->] & H2%elem_of_map_iter).
    rewrite lookup_fmap, H2 in H1. by injection H1.
  - apply Sorted_merge_sort, _.
  - apply (Sorted_fmap _ key_le key_le); [by intros [] []|].
    apply Sorted_merge_sort, _.
  - rewrite !map_iter_perm. by rewrite map_to_list_fmap.
Qed.

Lemma save_structmember_member_id (ida : Ida) s m m' o h h' :
  calls_of (save_structmember ida (s, (m, o))) h
  = calls_of (save_structmember ida (s, (m', o))) h'.
Proof. unfold save_structmember, save_member. simpl. by repeat case_match. Qed.

Lemma structmember_pass_offsets (ida : Ida) h h' :
  snd <$> structmember_to_process_ h = snd <$> structmember_to_process_ h' →
  structmember_pass ida h = structmember_pass ida h'.
Proof.
  intros Heq.
  assert (Hpass : ∀ h0,
    structmember_pass ida h0
    = flat_map (λ e : N * ea_t,
                  calls_of (save_structmember ida (e.1, (0, e.2))) h)
        (map_iter (snd <$> structmember_to_process_ h0))).
  { intros h0. rewrite map_iter_fmap. unfold structmember_pass.
    induction (map_iter (structmember_to_process_ h0)) as [|[k [m o]] l IH];
      [done|].
    simpl. rewrite IH. f_equal. apply save_structmember_member_id. }
  rewrite (Hpass h), (Hpass h'). f_equal. by f_equal.
Qed.

(** X10: at [save] only the structure and the offset of a member edit
    count.  Whether the last edit registered for a structure was an update
    or a delete, and whichever member id it named, [save] makes the same
    calls. *)
Theorem member_edit_kind_and_id_unused
    (ida : Ida) (h : Hooks) (struct_id member_id member_id' : tid_t)
    (offset : ea_t) :
  calls_of (save ida)
    (state_of (update_structure_member ida struct_id member_id offset) h)
  = calls_of (save ida)
      (state_of (delete_structure_member struct_id member_id' offset) h).
Proof.
  rewrite !calls_of_save.
  set (h1 := state_of (update_structure_member _ _ _ _) h).
  set (h2 := state_of (delete_structure_member _ _ _) h).
  rewrite (structure_pass_indep ida h1 h2), (enum_pass_indep ida h1 h2) by done.
  rewrite (structmember_pass_offsets ida h1 h2); [done|].
  unfold h1, h2, state_of. simpl. by rewrite !fmap_insert.
Qed.

(** ** Intake: what a registration does and does not do *)

Lemma in_intake_call (ida : Ida) (i : intake) h c :
  c ∈ calls_of (intake_call ida i) h →
  (∃ ea message, c = add_auto_comment ea message)
  ∨ (∃ message, c = IDA_LOG_WARNING message).
Proof.
  destruct i; simpl; unfold change_operand_type; repeat case_match;
    unfold calls_of; simpl; rewrite ?elem_of_cons, ?elem_of_nil; naive_solver.
Qed.

(** X11: an intake entry point exports nothing itself.  It makes at most
    one call, an annotation on the repository or a warning, never a call on
    the model or the visitor, and the call does not depend on what is
    pending. *)
Theorem intake_makes_no_export (ida : Ida) (i : intake) (h h' : Hooks) :
  let t := calls_of (intake_call ida i) h in
  (length t ≤ 1)%nat
  ∧ Forall (λ c, (∃ ea message, c = add_auto_comment ea message)
                 ∨ (∃ message, c = IDA_LOG_WARNING message)) t
  ∧ calls_of (intake_call ida i) h' = t.
Proof.
  intros t. split_and!.
  - subst t. destruct i; simpl; unfold change_operand_type;
      repeat case_match; unfold calls_of; simpl; lia.
  - apply Forall_forall. intros c. apply in_intake_call.
  - subst t. destruct i; simpl; unfold change_operand_type;
      by repeat case_match.
Qed.

(** X12: an annotation is never sent for something that is not pending.
    After an intake call that sent an annotation keyed by [ea], [ea] is in
    the pending address set, the pending structure set, the keys of the
    structure-member map or the pending enum set. *)
Theorem annotated_is_pending
    (ida : Ida) (i : intake) (h : Hooks) (ea : ea_t) (message : string) :
  add_auto_comment ea message ∈ calls_of (intake_call ida i) h →
  let h' := state_of (intake_call ida i) h in
  ea ∈ addresses_to_process_ h' ∨ ea ∈ structures_to_process_ h'
  ∨ ea ∈ dom (structmember_to_process_ h') ∨ ea ∈ enums_to_process_ h'.
Proof.
  destruct i; simpl; unfold change_operand_type; repeat case_match;
    unfold calls_of, state_of; simpl;
    rewrite ?elem_of_cons, ?elem_of_nil; intros Hc; destruct_or?;
    simplify_eq; try done; rewrite ?dom_insert_L; set_solver.
Qed.

Lemma annotated_is_pending_witness :
  add_auto_comment 7 "Member deleted"
    ∈ calls_of (intake_call ida_ex (DeleteStructureMember 7 100 2)) Hooks_new
  ∧ 7 ∈ dom (structmember_to_process_
               (state_of (intake_call ida_ex (DeleteStructureMember 7 100 2))
                  Hooks_new)).
Proof.
  assert (H : add_auto_comment 7 "Member deleted"
                ∈ calls_of (intake_call ida_ex (DeleteStructureMember 7 100 2))
                    Hooks_new).
  { apply (bool_decide_unpack _). by vm_compute. }
  split; [done|].
  destruct (annotated_is_pending ida_ex _ Hooks_new 7 _ H)
    as [Ha|[Hs|[Hm|He]]]; [| |done|].
  - by vm_compute in Ha.
  - by vm_compute in Hs.
  - by vm_compute in He.
Defined.

(** The state an intake call leaves, container by container. *)
Lemma intake_call_pending_le (ida : Ida) (i : intake) h :
  pending_le h (state_of (intake_call ida i) h)
  ∧ enummember_to_process_ (state_of (intake_call ida i) h)
    = enummember_to_process_ h.
Proof.
  unfold pending_le.
  destruct i; simpl; unfold change_operand_type; repeat case_match;
    unfold state_of; simpl; rewrite ?dom_insert_L; split_and!;
    try done; set_solver.
Qed.

Lemma command_call_pending_le (ida : Ida) (c : command) h :
  pending_le h (state_of (command_call ida c) h)
  ∧ enummember_to_process_ (state_of (command_call ida c) h)
    = enummember_to_process_ h.
Proof.
  destruct c as [i|]; [apply intake_call_pending_le|].
  simpl. unfold state_of. rewrite save_run. unfold pending_le. simpl.
  split_and!; try done. set_solver.
Qed.

Lemma pending_le_trans h1 h2 h3 :
  pending_le h1 h2 → pending_le h2 h3 → pending_le h1 h3.
Proof. unfold pending_le. intros ??. split_and!; set_solver. Qed.

(** X13: nothing pending is lost before [flush].  Across any sequence of
    intake calls and [save]s each container keeps what it had: the sets
    only grow and the structure-member map keeps its keys. *)
Theorem pending_only_grows (ida : Ida) (l : list command) (h : Hooks) :
  pending_le h (state_of (for_each l (command_call ida)) h).
Proof.
  revert h. induction l as [|c l IH]; intros h.
  - unfold pending_le. by split_and!.
  - simpl. rewrite state_of_bind.
    eapply pending_le_trans; [apply command_call_pending_le|apply IH].
Qed.

(** X14: the enum-member map is never written and never read.  No
    sequence of intake calls and [save]s changes it, so it stays empty in a
    tracker that started empty, and the calls of [save] are the same
    whatever it holds. *)
Theorem enummember_unused
    (ida : Ida) (l : list command) (h : Hooks)
    (f : gmap ea_t tid_t → gmap ea_t tid_t) :
  enummember_to_process_ (state_of (for_each l (command_call ida)) h)
  = enummember_to_process_ h
  ∧ enummember_to_process_ (state_of (for_each l (command_call ida)) Hooks_new)
    = ∅
  ∧ calls_of (save ida) (set_enummember f h) = calls_of (save ida) h.
Proof.
  assert (Hkeep : ∀ h0,
    enummember_to_process_ (state_of (for_each l (command_call ida)) h0)
    = enummember_to_process_ h0).
  { induction l as [|c l IH]; intros h0; [done|].
    simpl. rewrite state_of_bind, IH. apply command_call_pending_le. }
  split_and!; [apply Hkeep|by rewrite Hkeep|].
  rewrite !calls_of_save.
  by rewrite (structure_pass_indep ida (set_enummember f h) h),
    (structmember_pass_indep ida (set_enummember f h) h),
    (enum_pass_indep ida (set_enummember f h) h).
Qed.

(** ** Order of registrations *)

Lemma clash_false_insert (i j : intake) s v s' v'
    (m : gmap tid_t (tid_t * ea_t)) :
  member_edit i = Some (s, v) → member_edit j = Some (s', v') →
  clash i j = false →
  <[s' := v']> (<[s := v]> m) = <[s := v]> (<[s' := v']> m).
Proof.
  intros Hi Hj. unfold clash. rewrite Hi, Hj.
  destruct (N.eqb_spec s s') as [->|Hne]; simpl.
  - intros Hv%negb_false_iff%bool_decide_eq_true. by subst.
  - intros _. by apply insert_insert_ne.
Qed.

(** X15: registrations can be reordered.  Two intake calls leave the same
    pending state in either order, unless both are member edits of one
    structure with different member or offset (then the later one wins). *)
Theorem intake_calls_commute (ida : Ida) (i j : intake) (h : Hooks) :
  clash i j = false →
  state_of (intake_call ida i ;; intake_call ida j) h
  = state_of (intake_call ida j ;; intake_call ida i) h.
Proof.
  intros Hclash. rewrite !state_of_bind.
  destruct h as [a s m e em c g].
  destruct (member_edit i) as [[si vi]|] eqn:Hi;
    destruct (member_edit j) as [[sj vj]|] eqn:Hj.
  - pose proof (clash_false_insert i j si vi sj vj m Hi Hj Hclash) as Hm.
    destruct i; try discriminate; destruct j; try discriminate;
      simplify_eq/=; unfold state_of; simpl;
      unfold set_structmember; simpl; by f_equal.
  - destruct i; try discriminate; destruct j; try discriminate;
      simpl; unfold change_operand_type; repeat case_match; reflexivity.
  - destruct j; try discriminate; destruct i; try discriminate;
      simpl; unfold change_operand_type; repeat case_match; reflexivity.
  - destruct i; try discriminate; destruct j; try discriminate;
      simpl; unfold change_operand_type; repeat case_match;
      unfold state_of; simpl;
      unfold set_addresses, set_comments, set_structures, set_enums,
        set_segments; simpl; f_equal; set_solver.
Qed.

Lemma intake_calls_commute_witness :
  clash (Undefine 4096) (DeleteStructureMember 7 100 2) = false
  ∧ state_of (intake_call ida_ex (Undefine 4096) ;;
              intake_call ida_ex (DeleteStructureMember 7 100 2)) Hooks_new
    = state_of (intake_call ida_ex (DeleteStructureMember 7 100 2) ;;
                intake_call ida_ex (Undefine 4096)) Hooks_new.
Proof.
  split; [done|].
  exact (intake_calls_commute ida_ex (Undefine 4096)
           (DeleteStructureMember 7 100 2) Hooks_new eq_refl).
Defined.

(** ** How often an address or a segment start is exported *)

Lemma length_filter_elements `{Countable A} (P : A → Prop)
    `{!∀ x, Decision (P x)} (X : gset A) :
  length (filter P (elements X)) = size (filter P X).
Proof.
  unfold size, set_size. simpl. apply Permutation_length, NoDup_Permutation.
  - apply NoDup_filter, NoDup_elements.
  - apply NoDup_elements.
  - intros x. by rewrite list_elem_of_filter, !elem_of_elements, elem_of_filter.
Qed.

Lemma count_flat_map_indicator {A} (P : A → Prop) `{!∀ x, Decision (P x)}
    (f : A → list call) c (l : list A) :
  (∀ x, count c (f x) = if decide (P x) then 1%nat else 0%nat) →
  count c (flat_map f l) = length (filter P l).
Proof.
  intros Hf. induction l as [|x l IH]; [done|].
  simpl. rewrite count_app, Hf, IH, filter_cons. by destruct (decide (P x)).
Qed.

Lemma count_fmap_filter {A} (f : A → call) c (l : list A) :
  count c (f <$> l) = length (filter (λ x, f x = c) l).
Proof.
  induction l as [|x l IH]; [done|].
  rewrite fmap_cons, filter_cons. unfold count in *. simpl. rewrite IH.
  destruct (call_eq_dec (f x) c), (decide (f x = c)); done.
Qed.

Lemma count_save_structure_accept_ea (ida : Ida) ea s h :
  count (accept_ea ea) (calls_of (save_structure ida s) h)
  = if decide (owned_frame ida ea s = true) then 1%nat else 0%nat.
Proof.
  rewrite calls_of_save_structure. unfold owned_frame, count.
  destruct (get_struc_idx ida s =? BADADDR ida); simpl;
    [|by repeat case_decide].
  destruct (get_func_by_frame ida s =? BADADDR ida); simpl;
    [by repeat case_decide|].
  destruct (N.eqb_spec (get_func_by_frame ida s) ea) as [->|Hne];
    repeat case_match; repeat case_decide; try done; congruence.
Qed.

(** X16: how often [save] makes "accept address" for an address: once if
    it is pending as an address or comment change, plus once for every
    pending structure without structure index that is the frame of the
    function at that address.  So a function whose frame and whose own
    address are both pending is exported twice. *)
Theorem accept_ea_count (ida : Ida) (h : Hooks) (ea : ea_t) :
  count (accept_ea ea) (calls_of (save ida) h)
  = ((if bool_decide (ea ∈ comments_to_process_ h ∪ addresses_to_process_ h)
      then 1 else 0)
     + size (filter (λ s, owned_frame ida ea s = true)
               (structures_to_process_ h)))%nat.
Proof.
  rewrite count_accept_ea_save, count_address_pass, Nat.add_comm. f_equal.
  unfold structure_pass.
  rewrite (count_flat_map_indicator (λ s, owned_frame ida ea s = true))
    by (intros s; apply count_save_structure_accept_ea).
  by rewrite set_iter_perm, length_filter_elements.
Qed.

(** X17: how often [save] makes "accept segment" for a start address:
    once for every pending (start, end) pair with that start.  Pending
    segments are told apart by both ends but exported by their start alone,
    so two pending segments with one start give the same call twice. *)
Theorem accept_segment_count (ida : Ida) (h : Hooks) (start_ea : ea_t) :
  count (accept_segment start_ea) (calls_of (save ida) h)
  = size (filter (λ segment_ea : ea_t * ea_t, segment_ea.1 = start_ea)
            (segments_to_process_ h)).
Proof.
  rewrite count_save.
  rewrite (proj2 (count_zero_iff _ (comment_pass h))),
    (proj2 (count_zero_iff _ (structure_pass ida h))),
    (proj2 (count_zero_iff _ (structmember_pass ida h))),
    (proj2 (count_zero_iff _ (enum_pass ida h))),
    (proj2 (count_zero_iff _ (address_pass h))).
  - rewrite (proj2 (count_zero_iff _ [visit_start])),
      (proj2 (count_zero_iff _ [visit_end; _; _]));
      [|rewrite !elem_of_cons, elem_of_nil; naive_solver..].
    simpl. rewrite Nat.add_0_r. unfold segment_pass, tuple_set_iter.
    rewrite count_fmap_filter, (merge_sort_Permutation tuple_le).
    rewrite <- length_filter_elements. f_equal.
    apply list_filter_iff. intros [a e]. simpl. naive_solver.
  - intros ?%in_address_pass. naive_solver.
  - intros (? & _ & ?%in_save_enum)%in_enum_pass. naive_solver.
  - intros (? & _ & ?%in_save_structmember)%in_structmember_pass. naive_solver.
  - intros (? & _ & ?%in_save_structure)%in_structure_pass. naive_solver.
  - intros ?%in_comment_pass. naive_solver.
Qed.

(** ** Operand-type changes *)

Lemma save_insert_address_cases (ida : Ida) h ea :
  calls_of (save ida) (set_addresses (λ s, {[ea]} ∪ s) h)
  ≡ₚ (if bool_decide (ea ∈ comments_to_process_ h ∪ addresses_to_process_ h)
      then [] else [accept_ea ea])
     ++ calls_of (save ida) h.
Proof.
  case_bool_decide as Hin; [|apply save_insert_address; set_solver].
  simpl. rewrite !calls_of_save. set (h1 := set_addresses _ h).
  rewrite (structure_pass_indep ida h1 h), (structmember_pass_indep ida h1 h),
    (enum_pass_indep ida h1 h) by done.
  assert (address_pass h1 = address_pass h) as ->; [|done].
  unfold address_pass. do 2 f_equal. simpl. set_solver.
Qed.

(** X18: an operand-type change reaches the next [save] only for an
    address inside a function or on code: then the address is exported as a
    pending address.  Anywhere else the call leaves the state alone.  In
    both cases no other export of the next [save] changes. *)
Theorem operand_type_change_export (ida : Ida) (ea : ea_t) (h : Hooks) :
  let tracked := non_null (get_func ida ea) || is_code ida (get_flags ida ea) in
  let h' := state_of (change_operand_type ida ea) h in
  h' = (if tracked then set_addresses (λ s, {[ea]} ∪ s) h else h)
  ∧ (accept_ea ea ∈ calls_of (save ida) h'
     ↔ tracked = true ∨ accept_ea ea ∈ calls_of (save ida) h)
  ∧ ∀ c, c ≠ accept_ea ea →
         count c (calls_of (save ida) h') = count c (calls_of (save ida) h).
Proof.
  intros tracked h'.
  assert (Hh' : h' = if tracked then set_addresses (λ s, {[ea]} ∪ s) h else h).
  { unfold h', change_operand_type. fold tracked.
    destruct tracked; [done|]. by destruct (is_member_id ida ea). }
  split; [done|]. rewrite Hh'. destruct tracked; [|naive_solver].
  pose proof (save_insert_address_cases ida h ea) as Hperm. split.
  - split; [by left|]. intros _. rewrite calls_of_save, !elem_of_app.
    do 5 right. left. unfold address_pass. simpl.
    apply list_elem_of_fmap. exists ea. split; [done|].
    apply elem_of_set_iter. set_solver.
  - intros c Hc. rewrite (count_Permutation _ _ _ Hperm), count_app.
    case_bool_decide; [done|].
    rewrite (proj2 (count_zero_iff c [accept_ea ea])); [done|].
    rewrite elem_of_cons, elem_of_nil. naive_solver.
Qed.

Lemma operand_type_change_export_witness :
  accept_ea 5
    ∈ calls_of (save ida_ex) (state_of (change_operand_type ida_ex 5) Hooks_new)
  ∧ state_of (change_operand_type ida_ex 4096) Hooks_new = Hooks_new.
Proof.
  split.
  - apply (operand_type_change_export ida_ex 5 Hooks_new). by left.
  - apply (operand_type_change_export ida_ex 4096 Hooks_new).
Defined.

(** ** [flush] without [save], and the order of the passes *)

(** X19: changes that were registered but not saved are lost by [flush]:
    whatever ran before it, the next [save] exports nothing. *)
Theorem flush_discards_unsaved (ida : Ida) (m : M unit) (h : Hooks) :
  calls_of (save ida) (state_of (m ;; flush) h)
  = [visit_start; visit_end; model_accept_xml (get_cache_folder_path ida);
     IDA_LOG_INFO "Saved in %lld seconds"].
Proof.
  assert (state_of (m ;; flush) h = Hooks_new) as ->
    by (by rewrite state_of_bind).
  rewrite calls_of_save. reflexivity.
Qed.


(** * Calls counted over the whole of [save] *)

Lemma count_singleton c d :
  count c [d] = if decide (d = c) then 1%nat else 0%nat.
Proof.
  unfold count. cbn [count_occ].
  destruct (call_eq_dec d c), (decide (d = c)); done.
Qed.

Lemma filter_none {A} (P : A → Prop) `{!∀ x, Decision (P x)} (l : list A) :
  (∀ x, x ∈ l → ¬ P x) → filter P l = [].
Proof.
  induction l as [|x l IH]; [done|]. intros Hl.
  rewrite filter_cons_False by (apply Hl; by left).
  apply IH. intros y Hy. apply Hl. by right.
Qed.

Lemma filter_flat_map_none {A B} (P : B → Prop) `{!∀ x, Decision (P x)}
    (f : A → list B) (l : list A) :
  (∀ x, x ∈ l → filter P (f x) = []) → filter P (flat_map f l) = [].
Proof.
  induction l as [|x l IH]; [done|]. intros Hl. simpl.
  rewrite filter_app, Hl, IH; [done| |by left].
  intros y Hy. apply Hl. by right.
Qed.

Lemma filter_flat_map_NoDup {A B} (P : B → Prop) `{!∀ x, Decision (P x)}
    (f : A → list B) e (l : list A) :
  NoDup l → e ∈ l →
  (∀ x, x ∈ l → x ≠ e → filter P (f x) = []) →
  filter P (flat_map f l) = filter P (f e).
Proof.
  induction 1 as [|x l Hx Hnd IH]; [by intros ?%elem_of_nil|].
  intros Hin Hz. simpl. rewrite filter_app.
  apply elem_of_cons in Hin as [Heq|Hin].
  - subst x. rewrite (filter_flat_map_none P f l); [by rewrite app_nil_r|].
    intros y Hy. apply Hz; [by right|]. by intros ->.
  - rewrite Hz, IH; [done|done| |by left|by intros ->].
    intros y Hy ?. apply Hz; [by right|done].
Qed.

(** The calls of one iteration of the second loop of [save_structures]:
    "accept function" for the owner of a structure that is gone, then one
    call that settles the entry. *)
Lemma save_structmember_verdict (ida : Ida) s m o h :
  let gone :=
    negb (non_null (get_struc ida s)) || (get_struc_idx ida s =? BADADDR ida) in
  let ctx := if gone then get_func_by_frame ida s else BADADDR ida in
  ∃ verdict,
    calls_of (save_structmember ida (s, (m, o))) h
    = (if gone && negb (get_func_by_frame ida s =? BADADDR ida)
       then [accept_function (get_func_by_frame ida s)] else [])
      ++ [verdict]
    ∧ (verdict = delete_struct_member ctx s o
       ∨ ∃ ida_member,
           get_member ida (get_struc ida s) o = Some ida_member
           ∧ verdict = accept_struct_member ctx (member_t.id ida_member)).
Proof.
  intros gone ctx. unfold save_structmember, save_member. simpl.
  fold gone. subst ctx. destruct gone; simpl.
  - destruct (N.eqb_spec (get_func_by_frame ida s) (BADADDR ida)) as [->|_];
      simpl; [by eauto|].
    repeat case_match; unfold calls_of; simpl;
      eexists; (split; [reflexivity|]); eauto.
  - repeat case_match; unfold calls_of; simpl;
      eexists; (split; [reflexivity|]); eauto.
Qed.

Lemma member_of_deleted_structure_calls (ida : Ida) h s m o :
  get_struc ida s = None ∨ get_struc_idx ida s = BADADDR ida →
  get_func_by_frame ida s = BADADDR ida →
  calls_of (save_structmember ida (s, (m, o))) h
  = [delete_struct_member (BADADDR ida) s o].
Proof.
  intros Hgone Hown. unfold save_structmember. simpl.
  rewrite Hown, N.eqb_refl.
  destruct Hgone as [->| ->]; simpl; [done|].
  by rewrite N.eqb_refl, orb_true_r.
Qed.

Section WholeSave.

Variable ida : Ida.

(** The member calls of [save]: one for each key of the structure-member
    map. *)
Lemma length_member_calls_save h :
  length (filter (λ c, is_member_call c = true) (calls_of (save ida) h))
  = size (structmember_to_process_ h).
Proof.
  rewrite calls_of_save, !filter_app, !length_app.
  rewrite (filter_none _ (comment_pass h)), (filter_none _ (structure_pass ida h)),
    (filter_none _ (enum_pass ida h)), (filter_none _ (address_pass h)),
    (filter_none _ (segment_pass h)).
  - simpl. rewrite Nat.add_0_r. unfold structmember_pass.
    rewrite <- length_map_to_list, <- (Permutation_length (map_iter_perm _)).
    induction (map_iter (structmember_to_process_ h)) as [|[s [m o]] l IH];
      [done|].
    cbn [flat_map length]. rewrite filter_app, length_app, IH.
    destruct (save_structmember_verdict ida s m o h) as (v & Heq & Hv).
    unfold tid_t, ea_t in *. rewrite Heq.
    assert (Hv' : is_member_call v = true) by naive_solver.
    destruct (_ && _); cbn [app];
      rewrite ?(filter_cons_False _ (accept_function _)) by done;
      by rewrite filter_cons_True by done.
  - intros c Hc%in_segment_pass. naive_solver.
  - intros c Hc%in_address_pass. naive_solver.
  - intros c (? & _ & ?%in_save_enum)%in_enum_pass. naive_solver.
  - intros c (? & _ & ?%in_save_structure)%in_structure_pass. naive_solver.
  - intros c Hc%in_comment_pass. naive_solver.
Qed.

(** The calls of [save] that carry a structure ID come from the structure
    pass and from the member pass, in that order. *)
Lemma filter_names_structure_save s h :
  filter (λ c, names_structure s c = true) (calls_of (save ida) h)
  = filter (λ c, names_structure s c = true) (structure_pass ida h)
    ++ filter (λ c, names_structure s c = true) (structmember_pass ida h).
Proof.
  rewrite calls_of_save, !filter_app.
  rewrite (filter_none _ (comment_pass h)), (filter_none _ (enum_pass ida h)),
    (filter_none _ (address_pass h)), (filter_none _ (segment_pass h)).
  - simpl. by rewrite !app_nil_r.
  - intros c Hc%in_segment_pass. naive_solver.
  - intros c Hc%in_address_pass. naive_solver.
  - intros c (? & _ & ?%in_save_enum)%in_enum_pass. naive_solver.
  - intros c Hc%in_comment_pass. naive_solver.
Qed.

Lemma filter_names_structure_entry s k v h :
  k ≠ s →
  filter (λ c, names_structure s c = true)
    (calls_of (save_structmember ida (k, v)) h) = [].
Proof.
  intros Hk. apply filter_none. intros c Hc%in_save_structmember.
  simpl in Hc. destruct Hc as [[f ->]|[[ctx ->]|(ctx & id & ->)]]; simpl;
    try done. by intros ?%N.eqb_eq.
Qed.

Lemma filter_names_structure_member_pass s h :
  filter (λ c, names_structure s c = true) (structmember_pass ida h)
  = match structmember_to_process_ h !! s with
    | Some v => filter (λ c, names_structure s c = true)
                  (calls_of (save_structmember ida (s, v)) h)
    | None => []
    end.
Proof.
  unfold structmember_pass.
  destruct (structmember_to_process_ h !! s) as [v|] eqn:Hs.
  - apply (filter_flat_map_NoDup _
             (λ e, calls_of (save_structmember ida e) h) (s, v));
      [apply NoDup_map_iter|by apply elem_of_map_iter|].
    intros [k v'] Hin Hne. apply filter_names_structure_entry.
    intros ->. apply elem_of_map_iter in Hin.
    pose proof (eq_trans (eq_sym Hin) Hs) as [= ->]. by destruct Hne.
  - apply filter_flat_map_none. intros [k v'] Hin.
    apply filter_names_structure_entry. intros ->.
    apply elem_of_map_iter in Hin.
    by pose proof (eq_trans (eq_sym Hin) Hs).
Qed.

Lemma filter_names_structure_pass s h :
  s ∈ structures_to_process_ h →
  filter (λ c, names_structure s c = true) (structure_pass ida h)
  = filter (λ c, names_structure s c = true)
      (calls_of (save_structure ida s) h).
Proof.
  intros Hs. unfold structure_pass.
  apply (filter_flat_map_NoDup _ (λ s, calls_of (save_structure ida s) h) s);
    [apply NoDup_set_iter|by apply elem_of_set_iter|].
  intros x _ Hx. apply filter_none. intros c Hc%in_save_structure.
  destruct Hc as [[f ->]|[->|[-> _]]]; simpl; try done;
    by intros ?%N.eqb_eq.
Qed.

(** "accept address" over the whole of [save]. *)
Lemma count_accept_ea_exact h ea :
  count (accept_ea ea) (calls_of (save ida) h)
  = ((if bool_decide (ea ∈ comments_to_process_ h ∪ addresses_to_process_ h)
      then 1 else 0)
     + size (filter (λ s, owned_frame ida ea s = true)
               (structures_to_process_ h)))%nat.
Proof.
  rewrite count_accept_ea_save, count_address_pass, Nat.add_comm. f_equal.
  unfold structure_pass.
  rewrite (count_flat_map_indicator (λ s, owned_frame ida ea s = true))
    by (intros s; apply count_save_structure_accept_ea).
  by rewrite set_iter_perm, length_filter_elements.
Qed.

(** The "Changed comment" annotation over the whole of [save]. *)
Lemma count_changed_comment_save h ea :
  count (add_auto_comment ea "Changed comment") (calls_of (save ida) h)
  = count (add_auto_comment ea "Changed comment") (comment_pass h).
Proof.
  rewrite count_save.
  rewrite (proj2 (count_zero_iff _ (structure_pass ida h))),
    (proj2 (count_zero_iff _ (structmember_pass ida h))),
    (proj2 (count_zero_iff _ (enum_pass ida h))),
    (proj2 (count_zero_iff _ (address_pass h))),
    (proj2 (count_zero_iff _ (segment_pass h))).
  - rewrite (proj2 (count_zero_iff _ [visit_start])),
      (proj2 (count_zero_iff _ [visit_end; _; _])); [lia|..];
      rewrite !elem_of_cons, elem_of_nil; naive_solver.
  - intros ?%in_segment_pass. naive_solver.
  - intros ?%in_address_pass. naive_solver.
  - intros (? & _ & ?%in_save_enum)%in_enum_pass. naive_solver.
  - intros (? & _ & ?%in_save_structmember)%in_structmember_pass. naive_solver.
  - intros (? & _ & ?%in_save_structure)%in_structure_pass. naive_solver.
Qed.

End WholeSave.

(** ** Structures without a structure index *)

(** C4, as stated, fails in its second half: for the unknown structure 11,
    pending as a structure change and with a member edit, [save] makes for
    that ID "delete struct" and, besides, "delete struct-member". *)
Lemma C4_deleted_structure_member_call :
  11 ∈ structures_to_process_ h_deleted_with_member
  ∧ get_struc_idx ida_ex 11 = BADADDR ida_ex
  ∧ get_func_by_frame ida_ex 11 = BADADDR ida_ex
  ∧ filter (λ c, names_structure 11 c = true)
      (calls_of (save ida_ex) h_deleted_with_member)
    = [delete_struct 11; delete_struct_member (BADADDR ida_ex) 11 3]
  ∧ filter (λ c, names_structure 11 c = true)
      (calls_of (save ida_ex) h_deleted_with_member)
    ≠ [delete_struct 11].
Proof.
  split_and!; [apply (bool_decide_unpack _); by vm_compute|done|done| |].
  - by vm_compute.
  - intros Heq. by vm_compute in Heq.
Qed.

(** C4, amended: a pending structure ID without a valid structure index.
    If it has an owning function, the iteration of [save] for it makes
    exactly "accept struct" scoped to the function, then "accept address" of
    the function, these two sit next to each other in the calls of [save],
    and [save] never makes "delete struct" for the ID.  If it has no owning
    function, [save] makes "delete struct" for it once and no "accept
    struct"; of all the calls of [save] that carry the ID, "delete struct"
    is the first, and the only other one is "delete struct-member" without
    function context for the recorded offset, made when the ID also has an
    entry in the structure-member map. *)
Theorem C4_deleted_structure (ida : Ida) (h : Hooks) (struct_id : tid_t) :
  struct_id ∈ structures_to_process_ h →
  get_struc_idx ida struct_id = BADADDR ida →
  let func_ea := get_func_by_frame ida struct_id in
  let t := calls_of (save ida) h in
  if func_ea =? BADADDR ida then
    calls_of (save_structure ida struct_id) h = [delete_struct struct_id]
    ∧ count (delete_struct struct_id) t = 1%nat
    ∧ (∀ f, accept_struct f struct_id ∉ t)
    ∧ filter (λ c, names_structure struct_id c = true) t
      = delete_struct struct_id
        :: match structmember_to_process_ h !! struct_id with
           | Some (_, member_offset) =>
               [delete_struct_member (BADADDR ida) struct_id member_offset]
           | None => []
           end
  else
    calls_of (save_structure ida struct_id) h
    = [accept_struct func_ea struct_id; accept_ea func_ea]
    ∧ (∃ pre post,
         t = pre ++ [accept_struct func_ea struct_id; accept_ea func_ea] ++ post)
    ∧ delete_struct struct_id ∉ t.
Proof.
  intros Hin Hidx func_ea t.
  pose proof (calls_of_save_structure ida struct_id h) as Hcalls.
  rewrite Hidx, N.eqb_refl in Hcalls. simpl in Hcalls. fold func_ea in Hcalls.
  assert (Hnames :
    filter (λ c, names_structure struct_id c = true) t
    = filter (λ c, names_structure struct_id c = true)
        (calls_of (save_structure ida struct_id) h)
      ++ match structmember_to_process_ h !! struct_id with
         | Some v => filter (λ c, names_structure struct_id c = true)
                       (calls_of (save_structmember ida (struct_id, v)) h)
         | None => []
         end).
  { subst t. rewrite filter_names_structure_save.
    by rewrite filter_names_structure_pass, filter_names_structure_member_pass. }
  destruct (N.eqb_spec func_ea (BADADDR ida)) as [Hown|Hown];
    simpl in Hcalls.
  - assert (Hstruct : ∀ c,
      (∃ f, c = accept_struct f struct_id) ∨ c = delete_struct struct_id →
      count c t = count c [delete_struct struct_id]).
    { intros c Hc. subst t. rewrite count_save_struct_call by naive_solver.
      unfold structure_pass.
      rewrite (count_flat_map_NoDup _ _ struct_id), ?Hcalls;
        [done|apply NoDup_set_iter|by apply elem_of_set_iter|].
      intros x _ Hx. apply count_zero_iff. intros ?%in_save_structure.
      naive_solver. }
    split_and!; [done|..].
    + rewrite Hstruct, count_singleton by eauto. by case_decide.
    + intros f. apply count_zero_iff. rewrite Hstruct, count_singleton by eauto.
      by case_decide.
    + rewrite Hnames, Hcalls.
      rewrite filter_cons_True by (simpl; apply N.eqb_refl).
      rewrite filter_nil. simpl. f_equal.
      destruct (structmember_to_process_ h !! struct_id) as [[m o]|]; [|done].
      rewrite (member_of_deleted_structure_calls ida h struct_id m o);
        [|by right|done].
      rewrite filter_cons_True by (simpl; apply N.eqb_refl). done.
  - split_and!; [done| |].
    + subst t. rewrite <- Hcalls. by apply save_structure_block.
    + intros Hc. apply count_zero_iff in Hc; [done|]. subst t.
      rewrite count_save_struct_call by eauto. unfold structure_pass.
      rewrite (count_flat_map_NoDup _ _ struct_id), ?Hcalls;
        [|apply NoDup_set_iter|by apply elem_of_set_iter|].
      * unfold count. cbn [count_occ]. by repeat case_match.
      * intros x _ Hx. apply count_zero_iff. intros ?%in_save_structure.
        naive_solver.
Qed.

Lemma C4_deleted_structure_witness :
  (9 ∈ structures_to_process_ h_structures
   ∧ get_struc_idx ida_ex 9 = BADADDR ida_ex
   ∧ calls_of (save_structure ida_ex 9) h_structures
     = [accept_struct 5 9; accept_ea 5]
   ∧ (∃ pre post,
        calls_of (save ida_ex) h_structures
        = pre ++ [accept_struct 5 9; accept_ea 5] ++ post)
   ∧ delete_struct 9 ∉ calls_of (save ida_ex) h_structures)
  ∧ (11 ∈ structures_to_process_ h_deleted_with_member
     ∧ get_struc_idx ida_ex 11 = BADADDR ida_ex
     ∧ count (delete_struct 11) (calls_of (save ida_ex) h_deleted_with_member)
       = 1%nat
     ∧ filter (λ c, names_structure 11 c = true)
         (calls_of (save ida_ex) h_deleted_with_member)
       = [delete_struct 11; delete_struct_member (BADADDR ida_ex) 11 3]).
Proof.
  assert (H9 : 9 ∈ structures_to_process_ h_structures) by (by vm_compute).
  assert (H11 : 11 ∈ structures_to_process_ h_deleted_with_member)
    by (by vm_compute).
  split; (split; [done|split; [reflexivity|]]).
  - exact (C4_deleted_structure ida_ex h_structures 9 H9 eq_refl).
  - pose proof (C4_deleted_structure ida_ex h_deleted_with_member 11 H11 eq_refl)
      as (_ & Hcount & _ & Hnames).
    split; [exact Hcount|exact Hnames].
Defined.

(** ** Comment addresses over the whole of [save] *)

(** C7, as stated, fails: the address 5, pending as a comment change only,
    is the function that owns the pending frame 9, and [save] makes "accept
    address" for it twice. *)
Lemma C7_comment_address_exported_twice :
  5 ∈ comments_to_process_ h_mixed
  ∧ (5 ∉ addresses_to_process_ h_mixed)
  ∧ count (accept_ea 5) (calls_of (save ida_ex) h_mixed) = 2%nat
  ∧ count (accept_ea 5) (calls_of (save ida_ex) h_mixed) ≠ 1%nat.
Proof.
  split_and!.
  - apply (bool_decide_unpack _). by vm_compute.
  - intros Hin. by vm_compute in Hin.
  - by vm_compute.
  - intros Heq. by vm_compute in Heq.
Qed.

(** C7, amended: an address pending as a comment change only.  [save]
    starts, right after "visit start", with the comment pass, and the
    structure and enum passes come after it.  In all of [save] the
    annotation "Changed comment" is sent for the address exactly once, and
    the address is in the pending address set afterwards.  [save] makes
    "accept address" for it once for the pending address, and once more for
    every pending structure without structure index that is the frame of
    the function at that address; there is no other export of the comment:
    compared with the same [save] without that pending comment, the calls
    are the same plus that one annotation and one "accept address". *)
Theorem C7_comment_folding (ida : Ida) (h : Hooks) (ea : ea_t) :
  ea ∈ comments_to_process_ h →
  ea ∉ addresses_to_process_ h →
  let t := calls_of (save ida) h in
  (∃ rest,
     t = [visit_start] ++ comment_pass h ++ structure_pass ida h
         ++ structmember_pass ida h ++ enum_pass ida h ++ address_pass h
         ++ rest)
  ∧ count (add_auto_comment ea "Changed comment") (comment_pass h) = 1%nat
  ∧ count (add_auto_comment ea "Changed comment") t = 1%nat
  ∧ ea ∈ addresses_to_process_ (state_of (save ida) h)
  ∧ count (accept_ea ea) (address_pass h) = 1%nat
  ∧ count (accept_ea ea) t
    = (1 + size (filter (λ s, owned_frame ida ea s = true)
                   (structures_to_process_ h)))%nat
  ∧ t ≡ₚ add_auto_comment ea "Changed comment" :: accept_ea ea
         :: calls_of (save ida) (set_comments (λ s, s ∖ {[ea]}) h).
Proof.
  intros Hc Ha t.
  assert (Hnote :
    count (add_auto_comment ea "Changed comment") (comment_pass h) = 1%nat).
  { unfold comment_pass.
    assert (Inj (=) (=) (λ ea : ea_t, add_auto_comment ea "Changed comment"))
      by (by intros ?? [= ->]).
    apply (count_fmap_NoDup (λ ea, add_auto_comment ea "Changed comment"));
      [apply NoDup_set_iter|by apply elem_of_set_iter]. }
  split_and!.
  - subst t. rewrite calls_of_save. by eexists.
  - done.
  - subst t. by rewrite count_changed_comment_save.
  - unfold state_of. rewrite save_run. simpl. set_solver.
  - rewrite count_address_pass. rewrite bool_decide_eq_true_2; set_solver.
  - subst t. rewrite count_accept_ea_exact.
    rewrite bool_decide_eq_true_2; [done|set_solver].
  - subst t. set (h0 := set_comments _ h).
    assert (h = set_comments (λ s, {[ea]} ∪ s) h0) as Hh.
    { destruct h; unfold h0, set_comments; simpl in *. f_equal.
      by apply union_difference_singleton_L. }
    rewrite Hh at 1. apply save_insert_comment; subst h0; simpl; set_solver.
Qed.

Lemma C7_comment_folding_witness :
  5 ∈ comments_to_process_ h_mixed
  ∧ (5 ∉ addresses_to_process_ h_mixed)
  ∧ count (add_auto_comment 5 "Changed comment")
      (calls_of (save ida_ex) h_mixed) = 1%nat
  ∧ count (accept_ea 5) (calls_of (save ida_ex) h_mixed)
    = (1 + size (filter (λ s, owned_frame ida_ex 5%N s = true)
                   (structures_to_process_ h_mixed)))%nat.
Proof.
  assert (Hc : 5 ∈ comments_to_process_ h_mixed) by (by vm_compute).
  assert (Ha : 5 ∉ addresses_to_process_ h_mixed).
  { intros Hin. by vm_compute in Hin. }
  pose proof (C7_comment_folding ida_ex h_mixed 5 Hc Ha) as H.
  split; [done|split; [done|]]. split; [apply H|apply H].
Defined.

(** ** Repeated registrations over the whole of [save] *)

(** C8, as stated, fails: with the frame 9 of the function at 5 pending,
    the address 5 registered three times is once in the pending address set
    but [save] makes "accept address" for it twice. *)
Lemma C8_registered_address_exported_twice :
  addresses_to_process_ h_frame_and_address = {[5]}
  ∧ count (accept_ea 5) (calls_of (save ida_ex) h_frame_and_address) = 2%nat
  ∧ count (accept_ea 5) (calls_of (save ida_ex) h_frame_and_address) ≠ 1%nat.
Proof.
  split_and!.
  - by vm_compute.
  - by vm_compute.
  - intros Heq. by vm_compute in Heq.
Qed.

(** C8, amended: registering the same address mutation [N >= 1] times
    leaves the containers as one registration does, with the address once
    in the pending address set.  [save] then makes "accept address" for it
    once for the pending address, and once more for every pending structure
    without structure index that is the frame of the function at that
    address; the [N] registrations add that single "accept address" to what
    [save] would have called without them, and nothing at all when the
    address was already pending.  Every entry point [j], repeated, leaves
    the containers as one call of it does.  (Only the annotations sent to
    the repository are repeated [N] times.) *)
Theorem C8_dedup (ida : Ida) (i j : intake) (ea : ea_t) (N : nat) (h : Hooks) :
  (1 ≤ N)%nat →
  address_mutation i = Some ea →
  let hN := state_of (for_each (replicate N i) (intake_call ida)) h in
  let tN := calls_of (save ida) hN in
  hN = state_of (intake_call ida i) h
  ∧ count_occ N.eq_dec (set_iter (addresses_to_process_ hN)) ea = 1%nat
  ∧ count (accept_ea ea) (address_pass hN) = 1%nat
  ∧ count (accept_ea ea) tN
    = (1 + size (filter (λ s, owned_frame ida ea s = true)
                   (structures_to_process_ h)))%nat
  ∧ (if bool_decide (ea ∈ comments_to_process_ h ∪ addresses_to_process_ h)
     then tN = calls_of (save ida) h
     else tN ≡ₚ accept_ea ea :: calls_of (save ida) h)
  ∧ state_of (for_each (replicate N j) (intake_call ida)) h
    = state_of (intake_call ida j) h.
Proof.
  intros HN Hi hN tN.
  assert (HhN : hN = set_addresses (λ s, {[ea]} ∪ s) h).
  { subst hN. by rewrite intake_call_repeat, (address_mutation_state _ _ ea). }
  split_and!.
  - subst hN. by apply intake_call_repeat.
  - apply NoDup_count_occ'; [apply NoDup_ListNoDup, NoDup_set_iter|].
    apply list_elem_of_In, elem_of_set_iter. rewrite HhN. simpl. set_solver.
  - rewrite count_address_pass, bool_decide_eq_true_2; [done|].
    rewrite HhN. simpl. set_solver.
  - subst tN. rewrite count_accept_ea_exact, HhN. simpl.
    rewrite bool_decide_eq_true_2; [done|set_solver].
  - subst tN. rewrite HhN. case_bool_decide as Hin.
    + rewrite !calls_of_save.
      set (h1 := set_addresses _ h).
      rewrite (structure_pass_indep ida h1 h), (structmember_pass_indep ida h1 h),
        (enum_pass_indep ida h1 h) by done.
      assert (address_pass h1 = address_pass h) as ->; [|done].
      unfold address_pass. f_equal. f_equal. simpl. set_solver.
    + apply save_insert_address; set_solver.
  - by apply intake_call_repeat.
Qed.

Lemma C8_dedup_witness :
  (1 ≤ 3)%nat
  ∧ address_mutation (Undefine 5) = Some 5
  ∧ h_frame_and_address = state_of (undefine 5) h_frame
  ∧ count (accept_ea 5) (calls_of (save ida_ex) h_frame_and_address)
    = (1 + size (filter (λ s, owned_frame ida_ex 5%N s = true)
                   (structures_to_process_ h_frame)))%nat.
Proof.
  pose proof (C8_dedup ida_ex (Undefine 5) (UpdateEnum 3) 5 3 h_frame
                ltac:(lia) eq_refl) as H.
  split; [lia|split; [done|]]. split; [apply H|apply H].
Defined.

(** ** The last member edit over the whole of [save] *)

Section MemberEntries.

Variable ida : Ida.

(** The settling call of a pending member entry sits in the calls of
    [save]. *)
Lemma save_member_verdict h s m o :
  structmember_to_process_ h !! s = Some (m, o) →
  let gone :=
    negb (non_null (get_struc ida s)) || (get_struc_idx ida s =? BADADDR ida) in
  let ctx := if gone then get_func_by_frame ida s else BADADDR ida in
  ∃ pre verdict post,
    calls_of (save ida) h = pre ++ [verdict] ++ post
    ∧ (verdict = delete_struct_member ctx s o
       ∨ ∃ ida_member,
           get_member ida (get_struc ida s) o = Some ida_member
           ∧ verdict = accept_struct_member ctx (member_t.id ida_member)).
Proof.
  intros Hs gone ctx.
  destruct (save_structmember_block ida h s (m, o) Hs) as (pre & post & ->).
  destruct (save_structmember_verdict ida s m o h) as (v & -> & Hv).
  match goal with |- context [?p ++ [v]] => set (prefix := p) end.
  exists (pre ++ prefix), v, post. split; [|exact Hv].
  by rewrite <- !app_assoc.
Qed.

(** A "delete struct-member" of [save] for a structure is the settling
    call of the structure's entry: it has the entry's offset. *)
Lemma delete_struct_member_in_save h s m o ctx' o' :
  structmember_to_process_ h !! s = Some (m, o) →
  delete_struct_member ctx' s o' ∈ calls_of (save ida) h →
  let gone :=
    negb (non_null (get_struc ida s)) || (get_struc_idx ida s =? BADADDR ida) in
  ctx' = (if gone then get_func_by_frame ida s else BADADDR ida) ∧ o' = o.
Proof.
  intros Hs Hc gone. apply in_save in Hc.
  destruct Hc as [?|[Hc%in_comment_pass|[Hc|[Hc|[Hc|[Hc%in_address_pass|
    [Hc%in_segment_pass|?]]]]]]]; try naive_solver.
  - apply in_structure_pass in Hc as (? & _ & Hc%in_save_structure).
    naive_solver.
  - apply in_structmember_pass in Hc as ([k [m' o'']] & Hk & Hc).
    simpl in Hk.
    destruct (save_structmember_verdict ida k m' o'' h) as (v & Heq & Hv).
    unfold tid_t, ea_t in *. rewrite Heq in Hc.
    apply elem_of_app in Hc as [Hc|Hc%list_elem_of_singleton].
    { match type of Hc with _ ∈ (if ?b then _ else _) => destruct b end;
        set_solver. }
    destruct Hv as [->|(mb & _ & ->)]; [|done].
    injection Hc as -> -> ->.
    pose proof (eq_trans (eq_sym Hk) Hs) as [= -> ->]. done.
  - apply in_enum_pass in Hc as (? & _ & Hc%in_save_enum). naive_solver.
Qed.

End MemberEntries.

(** C9: whatever member edits were registered for a structure before, once
    an edit [e] for it is registered and no later call edits a member of the
    same structure, the structure-member map holds for the structure the
    member and offset of [e] only.  [save] then makes one member call for
    each structure of the map; for this structure it is a call for the
    offset of [e]: "delete struct-member" for that offset, or "accept
    struct-member" for the member the database has at that offset.  No
    "delete struct-member" of [save] names the structure with another
    offset. *)
Theorem C9_last_write_wins
    (ida : Ida) (l1 l2 : list intake) (e : intake)
    (struct_id member_id : tid_t) (offset : ea_t) (h : Hooks) :
  member_edit e = Some (struct_id, (member_id, offset)) →
  forallb (λ i, negb (edits_structure struct_id i)) l2 = true →
  let h' := state_of (for_each (l1 ++ e :: l2) (intake_call ida)) h in
  let t := calls_of (save ida) h' in
  let gone :=
    negb (non_null (get_struc ida struct_id))
    || (get_struc_idx ida struct_id =? BADADDR ida) in
  let stackframe_func_addr :=
    if gone then get_func_by_frame ida struct_id else BADADDR ida in
  structmember_to_process_ h' !! struct_id = Some (member_id, offset)
  ∧ filter (λ x, x.1 = struct_id) (map_iter (structmember_to_process_ h'))
    = [(struct_id, (member_id, offset))]
  ∧ length (filter (λ c, is_member_call c = true) t)
    = size (structmember_to_process_ h')
  ∧ (∃ pre verdict post,
       t = pre ++ [verdict] ++ post
       ∧ (verdict = delete_struct_member stackframe_func_addr struct_id offset
          ∨ ∃ ida_member,
              get_member ida (get_struc ida struct_id) offset = Some ida_member
              ∧ verdict = accept_struct_member stackframe_func_addr
                            (member_t.id ida_member)))
  ∧ (∀ ctx o, delete_struct_member ctx struct_id o ∈ t →
              ctx = stackframe_func_addr ∧ o = offset).
Proof.
  intros He Hl2 h' t gone ctx.
  assert (Hlook : structmember_to_process_ h' !! struct_id
                  = Some (member_id, offset)).
  { subst h'. rewrite state_of_for_each_app. simpl for_each.
    rewrite state_of_bind, structmember_other_calls by done.
    rewrite structmember_intake_call, He. apply lookup_insert_eq. }
  split_and!; [done| | | |].
  - apply filter_key_NoDup;
      [apply NoDup_fst_map_iter|by apply elem_of_map_iter].
  - apply length_member_calls_save.
  - by apply (save_member_verdict ida h' struct_id member_id offset).
  - intros ctx' o' Hc.
    by apply (delete_struct_member_in_save ida h' struct_id member_id offset).
Qed.

Lemma C9_last_write_wins_witness :
  let l1 := [UpdateStructureMember 7 100 0; DeleteStructureMember 7 100 2] in
  let l2 := [Undefine 4096; DeleteStructureMember 9 100 2] in
  let h' :=
    state_of (for_each (l1 ++ UpdateStructureMember 7 101 4 :: l2)
                (intake_call ida_ex)) Hooks_new in
  member_edit (UpdateStructureMember 7 101 4) = Some (7, (101, 4))
  ∧ forallb (λ i, negb (edits_structure 7 i)) l2 = true
  ∧ structmember_to_process_ h' !! 7 = Some (101, 4)
  ∧ length (filter (λ c, is_member_call c = true) (calls_of (save ida_ex) h'))
    = size (structmember_to_process_ h').
Proof.
  intros l1 l2 h'.
  pose proof (C9_last_write_wins ida_ex l1 l2 (UpdateStructureMember 7 101 4)
                7 101 4 Hooks_new eq_refl eq_refl) as H.
  split; [done|split; [done|]]. split; [apply H|apply H].
Defined.

(** The calls of [save] in the state of that witness: the entry of
    structure 7 is settled for offset 4, the last one registered. *)
Example last_write_wins_calls :
  calls_of (save ida_ex)
    (state_of
       (for_each [UpdateStructureMember 7 100 0; DeleteStructureMember 7 100 2;
                  UpdateStructureMember 7 101 4; Undefine 4096;
                  DeleteStructureMember 9 100 2] (intake_call ida_ex))
       Hooks_new)
  = [visit_start; accept_struct_member (BADADDR ida_ex) 101;
     accept_function 5; delete_struct_member 5 9 2; accept_ea 4096;
     visit_end; model_accept_xml "/tmp/cache";
     IDA_LOG_INFO "Saved in %lld seconds"].
Proof. by vm_compute. Qed.

(** * Every pending entry is exported, pass by pass *)

Lemma count_accept_segment_exact (ida : Ida) h start_ea :
  count (accept_segment start_ea) (calls_of (save ida) h)
  = size (filter (λ segment_ea : ea_t * ea_t, segment_ea.1 = start_ea)
            (segments_to_process_ h)).
Proof.
  rewrite count_save.
  rewrite (proj2 (count_zero_iff _ (comment_pass h))),
    (proj2 (count_zero_iff _ (structure_pass ida h))),
    (proj2 (count_zero_iff _ (structmember_pass ida h))),
    (proj2 (count_zero_iff _ (enum_pass ida h))),
    (proj2 (count_zero_iff _ (address_pass h))).
  - rewrite (proj2 (count_zero_iff _ [visit_start])),
      (proj2 (count_zero_iff _ [visit_end; _; _]));
      [|rewrite !elem_of_cons, elem_of_nil; naive_solver..].
    simpl. rewrite Nat.add_0_r. unfold segment_pass, tuple_set_iter.
    rewrite count_fmap_filter, (merge_sort_Permutation tuple_le).
    rewrite <- length_filter_elements. f_equal.
    apply list_filter_iff. intros [a e]. simpl. naive_solver.
  - intros ?%in_address_pass. naive_solver.
  - intros (? & _ & ?%in_save_enum)%in_enum_pass. naive_solver.
  - intros (? & _ & ?%in_save_structmember)%in_structmember_pass. naive_solver.
  - intros (? & _ & ?%in_save_structure)%in_structure_pass. naive_solver.
  - intros ?%in_comment_pass. naive_solver.
Qed.

(** X4: [save] drops nothing that is pending; each pending entry gets a
    call of its own.  A pending address or comment address gets one "accept
    address" beyond those made for the frames its function owns.  A pending
    structure gets "accept struct" or "delete struct" with its ID.  An entry
    of the structure-member map gets its settling call, in the function
    context of the entry: "delete struct-member" for its structure and
    offset, or "accept struct-member" for the member the database has at
    that offset; and [save] makes as many member calls as the map has
    entries.  A pending enum gets "accept enum" or "delete enum" with its
    ID.  "accept segment" is made for a start address once for each pending
    segment with that start. *)
Theorem save_exports_all_pending (ida : Ida) (h : Hooks) :
  let t := calls_of (save ida) h in
  (∀ ea, ea ∈ comments_to_process_ h ∪ addresses_to_process_ h →
         count (accept_ea ea) t
         = (1 + size (filter (λ s, owned_frame ida ea s = true)
                        (structures_to_process_ h)))%nat)
  ∧ (∀ s, s ∈ structures_to_process_ h →
          (∃ f, accept_struct f s ∈ t) ∨ delete_struct s ∈ t)
  ∧ (∀ s m o,
       structmember_to_process_ h !! s = Some (m, o) →
       let gone :=
         negb (non_null (get_struc ida s))
         || (get_struc_idx ida s =? BADADDR ida) in
       let stackframe_func_addr :=
         if gone then get_func_by_frame ida s else BADADDR ida in
       ∃ pre verdict post,
         t = pre ++ [verdict] ++ post
         ∧ (verdict = delete_struct_member stackframe_func_addr s o
            ∨ ∃ ida_member,
                get_member ida (get_struc ida s) o = Some ida_member
                ∧ verdict = accept_struct_member stackframe_func_addr
                              (member_t.id ida_member)))
  ∧ length (filter (λ c, is_member_call c = true) t)
    = size (structmember_to_process_ h)
  ∧ (∀ e, e ∈ enums_to_process_ h → accept_enum e ∈ t ∨ delete_enum e ∈ t)
  ∧ (∀ start_ea,
       count (accept_segment start_ea) t
       = size (filter (λ segment_ea : ea_t * ea_t, segment_ea.1 = start_ea)
                 (segments_to_process_ h))).
Proof.
  intros t. subst t. split_and!.
  - intros ea Hin. rewrite count_accept_ea_exact.
    by rewrite bool_decide_eq_true_2.
  - intros s Hs.
    destruct (save_structure_block ida h s Hs) as (pre & post & ->).
    rewrite calls_of_save_structure.
    setoid_rewrite elem_of_app. repeat case_match; set_solver.
  - intros s m o Hs. exact (save_member_verdict ida h s m o Hs).
  - apply length_member_calls_save.
  - intros e He. rewrite !in_save.
    assert (accept_enum e ∈ enum_pass ida h ∨ delete_enum e ∈ enum_pass ida h);
      [|naive_solver].
    unfold enum_pass. rewrite !elem_of_flat_map.
    apply elem_of_set_iter in He. pose proof (calls_of_save_enum ida e h) as Hc.
    destruct (get_enum_idx ida e =? BADADDR ida);
      [right|left]; exists e; rewrite Hc; set_solver.
  - intros a. apply count_accept_segment_exact.
Qed.

Lemma save_exports_all_pending_witness :
  count (accept_ea 5) (calls_of (save ida_ex) h_mixed)
  = (1 + size (filter (λ s, owned_frame ida_ex 5%N s = true)
                 (structures_to_process_ h_mixed)))%nat
  ∧ ((∃ f, accept_struct f 9 ∈ calls_of (save ida_ex) h_mixed)
     ∨ delete_struct 9 ∈ calls_of (save ida_ex) h_mixed)
  ∧ (∃ pre verdict post,
       calls_of (save ida_ex) h_mixed = pre ++ [verdict] ++ post
       ∧ (verdict = delete_struct_member (BADADDR ida_ex) 7 4
          ∨ ∃ ida_member,
              get_member ida_ex (get_struc ida_ex 7) 4 = Some ida_member
              ∧ verdict = accept_struct_member (BADADDR ida_ex)
                            (member_t.id ida_member))).
Proof.
  pose proof (save_exports_all_pending ida_ex h_mixed)
    as (Ha & Hs & Hm & _ & _ & _).
  split_and!.
  - apply Ha. apply (bool_decide_unpack _). by vm_compute.
  - apply Hs. apply (bool_decide_unpack _). by vm_compute.
  - apply (Hm 7 101 4). by vm_compute.
Defined.

(** X20: the calls of [save] come pass by pass, each pass in ascending
    order of its container: "visit start"; the "Changed comment"
    annotation of each pending comment; the iterations for the pending
    structures (structure calls and the "accept address" of frame owners);
    the iterations for the entries of the structure-member map ("accept
    function" and member calls); the iterations for the pending enums;
    "accept address" for each address pending after the comments were
    added; "accept segment" for each pending segment; then "visit end", the
    XML export and the log line. *)
Theorem save_pass_order (ida : Ida) (h : Hooks) :
  let notes :=
    (λ ea, add_auto_comment ea "Changed comment")
      <$> set_iter (comments_to_process_ h) in
  let structs :=
    flat_map (λ s, calls_of (save_structure ida s) h)
      (set_iter (structures_to_process_ h)) in
  let members :=
    flat_map (λ e, calls_of (save_structmember ida e) h)
      (map_iter (structmember_to_process_ h)) in
  let enums :=
    flat_map (λ e, calls_of (save_enum ida e) h)
      (set_iter (enums_to_process_ h)) in
  let addresses :=
    accept_ea
      <$> set_iter (comments_to_process_ h ∪ addresses_to_process_ h) in
  let segments :=
    (λ segment_ea : ea_t * ea_t, accept_segment segment_ea.1)
      <$> tuple_set_iter (segments_to_process_ h) in
  calls_of (save ida) h
  = [visit_start] ++ notes ++ structs ++ members ++ enums ++ addresses
    ++ segments
    ++ [visit_end; model_accept_xml (get_cache_folder_path ida);
        IDA_LOG_INFO "Saved in %lld seconds"]
  ∧ Forall (λ c, (∃ f s, c = accept_struct f s) ∨ (∃ s, c = delete_struct s)
                 ∨ (∃ ea, c = accept_ea ea)) structs
  ∧ Forall (λ c, (∃ ea, c = accept_function ea) ∨ is_member_call c = true)
      members
  ∧ Forall (λ c, (∃ e, c = accept_enum e) ∨ (∃ e, c = delete_enum e)) enums
  ∧ length structs ≥ length (set_iter (structures_to_process_ h))
  ∧ length members ≥ length (map_iter (structmember_to_process_ h))
  ∧ length enums = length (set_iter (enums_to_process_ h)).
Proof.
  intros notes structs members enums addresses segments.
  split; [apply calls_of_save|].
  split_and!; try (apply Forall_forall; intros c Hc).
  - apply (in_structure_pass ida) in Hc as (s & _ & Hc%in_save_structure).
    naive_solver.
  - apply (in_structmember_pass ida) in Hc
      as (e & _ & Hc%in_save_structmember).
    naive_solver.
  - apply (in_enum_pass ida) in Hc as (e & _ & Hc%in_save_enum). naive_solver.
  - subst structs.
    induction (set_iter (structures_to_process_ h)) as [|s l IH];
      [simpl; lia|].
    cbn [flat_map length]. rewrite length_app.
    assert (1 ≤ length (calls_of (save_structure ida s) h))%nat; [|lia].
    destruct (calls_of (save_structure ida s) h) eqn:E; [|simpl; lia].
    by apply save_structure_nonempty in E.
  - subst members.
    induction (map_iter (structmember_to_process_ h)) as [|e l IH];
      [simpl; lia|].
    cbn [flat_map length]. rewrite length_app.
    assert (1 ≤ length (calls_of (save_structmember ida e) h))%nat; [|lia].
    destruct (calls_of (save_structmember ida e) h) eqn:E; [|simpl; lia].
    by apply save_structmember_nonempty in E.
  - subst enums.
    induction (set_iter (enums_to_process_ h)) as [|e l IH]; [done|].
    cbn [flat_map length]. rewrite length_app, IH, calls_of_save_enum.
    by case_match.
Qed.
